(** * The Builder pattern of [creational/builder.ts], embedded in Rocq

    The TypeScript program allocates three kinds of objects ([House],
    the concrete builders, [Director]) and mutates them in place through
    references.  The embedding keeps that shape: an explicit store with one
    typed region per class, references as store addresses, and every method
    as a computation in a state-and-exception monad.  A JavaScript
    [TypeError] (reading a property of [undefined]) is the only exception
    the program can raise. *)

From stdpp Require Import base gmap list strings.

Set Default Proof Using "Type".

(** ** Objects and the store *)

(** References are store addresses. *)
Definition loc := nat.

(** [class House { public parts: string[] = []; }] *)
Record HouseObj := mkHouse { parts : list string }.

(** The concrete builder classes: [CheapHouseBuilder] and [CastleBuilder]
    of [builder.ts], and [ConcreteBuilder1] of the compiled script. *)
Inductive BuilderClass :=
| Class_CheapHouseBuilder
| Class_CastleBuilder
| Class_ConcreteBuilder1.

(** A builder object: its class (the prototype used for method dispatch)
    and its single field [house], which is [undefined] ([None]) between
    allocation and the first [reset]. *)
Record BuilderObj := mkBuilder { cls : BuilderClass; house : option loc }.

(** [class Director { private builder: Builder; }]: the field is
    [undefined] until [setBuilder] runs. *)
Record DirectorObj := mkDirector { builder : option loc }.

(** The store, with the console as the list of logged strings (oldest
    first). *)
Record Store := mkStore {
  houses    : gmap loc HouseObj;
  builders  : gmap loc BuilderObj;
  directors : gmap loc DirectorObj;
  console   : list string
}.

Definition empty_store : Store := mkStore ∅ ∅ ∅ [].

(** ** The monad of method bodies *)

(** [TypeError]: a property of [undefined] was read.  [DanglingRef] marks a
    reference to an address that holds no object; no execution that starts
    from a well-formed store reaches it.  Both outcomes carry the store as
    it is when the method returns or the exception leaves it. *)
Inductive Fault := TypeError | DanglingRef.

Inductive Outcome (A : Type) :=
| Return (a : A) (σ : Store)
| Throw (e : Fault) (σ : Store).
Arguments Return {A} a σ.
Arguments Throw {A} e σ.

Definition M (A : Type) := Store → Outcome A.

Definition ret {A} (a : A) : M A := fun σ => Return a σ.
Definition throw {A} (e : Fault) : M A := fun σ => Throw e σ.
Definition bind {A B} (m : M A) (k : A → M B) : M B :=
  fun σ => match m σ with
           | Return a σ' => k a σ'
           | Throw e σ' => Throw e σ'
           end.

(** The monad is used through stdpp's notations [x ← m; k] and [m;; k]. *)
#[global] Instance M_ret : MRet M := @ret.
#[global] Instance M_bind : MBind M := fun A B k m => bind m k.

(** ** Store primitives *)

Definition set_houses (f : gmap loc HouseObj → gmap loc HouseObj) (σ : Store) : Store :=
  mkStore (f (houses σ)) (builders σ) (directors σ) (console σ).
Definition set_builders (f : gmap loc BuilderObj → gmap loc BuilderObj) (σ : Store) : Store :=
  mkStore (houses σ) (f (builders σ)) (directors σ) (console σ).
Definition set_directors (f : gmap loc DirectorObj → gmap loc DirectorObj) (σ : Store) : Store :=
  mkStore (houses σ) (builders σ) (f (directors σ)) (console σ).
Definition set_console (f : list string → list string) (σ : Store) : Store :=
  mkStore (houses σ) (builders σ) (directors σ) (f (console σ)).

(** Dereferencing. *)
Definition read_house (h : loc) : M HouseObj :=
  fun σ => match houses σ !! h with
           | Some o => Return o σ
           | None => Throw DanglingRef σ
           end.
Definition read_builder (b : loc) : M BuilderObj :=
  fun σ => match builders σ !! b with
           | Some o => Return o σ
           | None => Throw DanglingRef σ
           end.
Definition read_director (d : loc) : M DirectorObj :=
  fun σ => match directors σ !! d with
           | Some o => Return o σ
           | None => Throw DanglingRef σ
           end.

(** Reading a property through a value that may be [undefined]. *)
Definition deref {A} (v : option A) : M A :=
  match v with
  | Some a => ret a
  | None => throw TypeError
  end.

(** [console.log(s)] *)
Definition console_log (s : string) : M unit :=
  fun σ => Return () (set_console (fun out => out ++ [s]) σ).

(** ** class House *)

Module House.

(** [new House()]: the field initialiser [parts = []] on a fresh object. *)
Definition new : M loc :=
  fun σ => let h := fresh (dom (houses σ)) in
           Return h (set_houses <[h := mkHouse []]> σ).

(** [this.parts.push(s)] *)
Definition parts_push (this : loc) (s : string) : M unit :=
  o ← read_house this;
  ((fun σ => Return () (set_houses <[this := mkHouse (parts o ++ [s])]> σ)) : M unit).

(** [Array.prototype.join] on an array of strings. *)
Fixpoint join (sep : string) (l : list string) : string :=
  match l with
  | [] => ""
  | [s] => s
  | s :: rest => s +:+ sep +:+ join sep rest
  end.

Definition LF : string := String (Ascii.ascii_of_nat 10) EmptyString.

(** The argument of [console.log] in [listParts]:
    [`House parts: ${this.parts.join(', ')}\n`]. *)
Definition listParts_text (l : list string) : string :=
  "House parts: " +:+ join ", " l +:+ LF.

Definition listParts (this : loc) : M unit :=
  o ← read_house this;
  console_log (listParts_text (parts o)).

End House.

(** ** interface Builder *)

(** The seven step operations of [interface Builder]; [this] is passed
    explicitly. *)
Class Builder (c : BuilderClass) := {
  produceWalls : loc → M unit;
  produceWindows : loc → M unit;
  produceDoor : loc → M unit;
  produceRoof : loc → M unit;
  produceSwimmingPool : loc → M unit;
  produceGarage : loc → M unit;
  produceGarden : loc → M unit
}.
Arguments produceWalls c {_} this.
Arguments produceWindows c {_} this.
Arguments produceDoor c {_} this.
Arguments produceRoof c {_} this.
Arguments produceSwimmingPool c {_} this.
Arguments produceGarage c {_} this.
Arguments produceGarden c {_} this.

(** ** The concrete builders *)

(** [new C()] before the constructor body runs: a fresh object of class
    [c] whose field [house] is still [undefined]. *)
Definition alloc_builder (c : BuilderClass) : M loc :=
  fun σ => let b := fresh (dom (builders σ)) in
           Return b (set_builders <[b := mkBuilder c None]> σ).

(** [this.house = h] *)
Definition write_house (this h : loc) : M unit :=
  o ← read_builder this;
  ((fun σ => Return () (set_builders <[this := mkBuilder (cls o) (Some h)]> σ)) : M unit).

(** [this.house.parts.push(s)] *)
Definition house_parts_push (this : loc) (s : string) : M unit :=
  o ← read_builder this;
  h ← deref (house o);
  House.parts_push h s.

Module CheapHouseBuilder.

Definition reset (this : loc) : M unit :=
  h ← House.new;
  write_house this h.

Definition constructor : M loc :=
  this ← alloc_builder Class_CheapHouseBuilder;
  reset this;;
  mret this.

Definition produceWalls (this : loc) : M unit := house_parts_push this "Walls".
Definition produceWindows (this : loc) : M unit := house_parts_push this "Windows".
Definition produceDoor (this : loc) : M unit := house_parts_push this "Door".
Definition produceRoof (this : loc) : M unit := house_parts_push this "Roof".
Definition produceSwimmingPool (this : loc) : M unit := house_parts_push this "Swimming pool".
Definition produceGarage (this : loc) : M unit := house_parts_push this "Garage".
Definition produceGarden (this : loc) : M unit := house_parts_push this "Garden".

(** [const result = this.house; this.reset(); return result;] *)
Definition getHouse (this : loc) : M (option loc) :=
  o ← read_builder this;
  let result := house o in
  reset this;;
  mret result.

End CheapHouseBuilder.

(** The values a caller can pass for the untyped constructor parameter
    [bridge]. *)
Inductive Value :=
| VUndefined
| VNull
| VBoolean (b : bool)
| VNumber (n : Z)
| VString (s : string)
| VObject (l : loc).

Module CastleBuilder.

Definition reset (this : loc) : M unit :=
  h ← House.new;
  write_house this h.

Definition constructor (bridge : Value) : M loc :=
  this ← alloc_builder Class_CastleBuilder;
  reset this;;
  mret this.

Definition produceWalls (this : loc) : M unit := house_parts_push this "Walls marmol".
Definition produceWindows (this : loc) : M unit := house_parts_push this "Windows".
Definition produceDoor (this : loc) : M unit := house_parts_push this "Door".
Definition produceRoof (this : loc) : M unit := house_parts_push this "Roof".
Definition produceSwimmingPool (this : loc) : M unit := house_parts_push this "Swimming pool".
Definition produceGarage (this : loc) : M unit := house_parts_push this "Garage".
Definition produceGarden (this : loc) : M unit := house_parts_push this "Garden".

Definition getHouse (this : loc) : M (option loc) :=
  o ← read_builder this;
  let result := house o in
  reset this;;
  mret result.

End CastleBuilder.

(** [ConcreteBuilder1] of the compiled script. *)
Module ConcreteBuilder1.

Definition reset (this : loc) : M unit :=
  h ← House.new;
  write_house this h.

Definition constructor : M loc :=
  this ← alloc_builder Class_ConcreteBuilder1;
  reset this;;
  mret this.

Definition produceWalls (this : loc) : M unit := house_parts_push this "Walls".
Definition produceWindows (this : loc) : M unit := house_parts_push this "Windows".
Definition produceDoor (this : loc) : M unit := house_parts_push this "Door".
Definition produceRoof (this : loc) : M unit := house_parts_push this "Roof".
Definition produceSwimmingPool (this : loc) : M unit := house_parts_push this "Swimming pool".
Definition produceGarage (this : loc) : M unit := house_parts_push this "Garage".
Definition produceGarden (this : loc) : M unit := house_parts_push this "Garden".

Definition getHouse (this : loc) : M (option loc) :=
  o ← read_builder this;
  let result := house o in
  reset this;;
  mret result.

End ConcreteBuilder1.

#[global] Instance CheapHouseBuilder_Builder : Builder Class_CheapHouseBuilder := {|
  produceWalls := CheapHouseBuilder.produceWalls;
  produceWindows := CheapHouseBuilder.produceWindows;
  produceDoor := CheapHouseBuilder.produceDoor;
  produceRoof := CheapHouseBuilder.produceRoof;
  produceSwimmingPool := CheapHouseBuilder.produceSwimmingPool;
  produceGarage := CheapHouseBuilder.produceGarage;
  produceGarden := CheapHouseBuilder.produceGarden
|}.

#[global] Instance CastleBuilder_Builder : Builder Class_CastleBuilder := {|
  produceWalls := CastleBuilder.produceWalls;
  produceWindows := CastleBuilder.produceWindows;
  produceDoor := CastleBuilder.produceDoor;
  produceRoof := CastleBuilder.produceRoof;
  produceSwimmingPool := CastleBuilder.produceSwimmingPool;
  produceGarage := CastleBuilder.produceGarage;
  produceGarden := CastleBuilder.produceGarden
|}.

#[global] Instance ConcreteBuilder1_Builder : Builder Class_ConcreteBuilder1 := {|
  produceWalls := ConcreteBuilder1.produceWalls;
  produceWindows := ConcreteBuilder1.produceWindows;
  produceDoor := ConcreteBuilder1.produceDoor;
  produceRoof := ConcreteBuilder1.produceRoof;
  produceSwimmingPool := ConcreteBuilder1.produceSwimmingPool;
  produceGarage := ConcreteBuilder1.produceGarage;
  produceGarden := ConcreteBuilder1.produceGarden
|}.

(** The prototype of each class, for dynamic dispatch. *)
Definition prototype (c : BuilderClass) : Builder c :=
  match c with
  | Class_CheapHouseBuilder => CheapHouseBuilder_Builder
  | Class_CastleBuilder => CastleBuilder_Builder
  | Class_ConcreteBuilder1 => ConcreteBuilder1_Builder
  end.

(** A method of the interface, to be looked up in a prototype. *)
Definition Method := ∀ c, Builder c → loc → M unit.

(** [b.m()]: the method is looked up in the prototype of the object [b]
    refers to. *)
Definition invoke (m : Method) (b : loc) : M unit :=
  o ← read_builder b;
  m (cls o) (prototype (cls o)) b.

(** [reset] and [getHouse] are not part of the interface; every concrete
    class has them. *)
Definition reset_of (c : BuilderClass) : loc → M unit :=
  match c with
  | Class_CheapHouseBuilder => CheapHouseBuilder.reset
  | Class_CastleBuilder => CastleBuilder.reset
  | Class_ConcreteBuilder1 => ConcreteBuilder1.reset
  end.

Definition getHouse_of (c : BuilderClass) : loc → M (option loc) :=
  match c with
  | Class_CheapHouseBuilder => CheapHouseBuilder.getHouse
  | Class_CastleBuilder => CastleBuilder.getHouse
  | Class_ConcreteBuilder1 => ConcreteBuilder1.getHouse
  end.

Definition reset (b : loc) : M unit :=
  o ← read_builder b;
  reset_of (cls o) b.

Definition getHouse (b : loc) : M (option loc) :=
  o ← read_builder b;
  getHouse_of (cls o) b.

(** ** class Director *)

Module Director.

(** [new Director()]: no constructor body, the field stays [undefined]. *)
Definition constructor : M loc :=
  fun σ => let d := fresh (dom (directors σ)) in
           Return d (set_directors <[d := mkDirector None]> σ).

(** [this.builder = builder] *)
Definition setBuilder (this : loc) (builder : loc) : M unit :=
  _ ← read_director this;
  ((fun σ => Return () (set_directors <[this := mkDirector (Some builder)]> σ)) : M unit).

(** [this.builder.m()] *)
Definition builder_call (this : loc) (m : Method) : M unit :=
  d ← read_director this;
  b ← deref (builder d);
  invoke m b.

Definition buildBasicHouse (this : loc) : M unit :=
  builder_call this produceWalls;;
  builder_call this produceWindows;;
  builder_call this produceDoor;;
  builder_call this produceRoof.

Definition buildFullHouse (this : loc) : M unit :=
  builder_call this produceWalls;;
  builder_call this produceWindows;;
  builder_call this produceDoor;;
  builder_call this produceRoof;;
  builder_call this produceGarage;;
  builder_call this produceSwimmingPool;;
  builder_call this produceGarden.

(** The full recipe under its name in the compiled script. *)
Definition buildLuxuryHouse (this : loc) : M unit :=
  builder_call this produceWalls;;
  builder_call this produceWindows;;
  builder_call this produceDoor;;
  builder_call this produceRoof;;
  builder_call this produceGarage;;
  builder_call this produceSwimmingPool;;
  builder_call this produceGarden.

End Director.

(** ** The client code *)

(** [x.getHouse().listParts()] *)
Definition getHouse_listParts (getHouse : loc → M (option loc)) (b : loc) : M unit :=
  r ← getHouse b;
  h ← deref r;
  House.listParts h.

(** [clientCode] of [builder.ts]. *)
Definition clientCode (director : loc) : M unit :=
  builder ← CastleBuilder.constructor (VNumber 4);
  Director.setBuilder director builder;;
  console_log "Basic house:";;
  Director.buildBasicHouse director;;
  getHouse_listParts CastleBuilder.getHouse builder;;
  console_log "Full house:";;
  Director.buildFullHouse director;;
  getHouse_listParts CastleBuilder.getHouse builder;;
  console_log "Custom house:";;
  CastleBuilder.produceWalls builder;;
  CastleBuilder.produceDoor builder;;
  CastleBuilder.produceRoof builder;;
  CastleBuilder.produceWindows builder;;
  CastleBuilder.produceSwimmingPool builder;;
  getHouse_listParts CastleBuilder.getHouse builder.

(** [const director = new Director(); clientCode(director);] *)
Definition main : M unit :=
  director ← Director.constructor;
  clientCode director.

(** [clientCode] of the compiled script. *)
Definition clientCode_js (director : loc) : M unit :=
  builder ← ConcreteBuilder1.constructor;
  Director.setBuilder director builder;;
  console_log "Standard basic product:";;
  Director.buildBasicHouse director;;
  getHouse_listParts ConcreteBuilder1.getHouse builder;;
  console_log "Standard full featured product:";;
  Director.buildLuxuryHouse director;;
  getHouse_listParts ConcreteBuilder1.getHouse builder;;
  console_log "Custom product:";;
  ConcreteBuilder1.produceWalls builder;;
  ConcreteBuilder1.produceDoor builder;;
  ConcreteBuilder1.produceRoof builder;;
  ConcreteBuilder1.produceWindows builder;;
  ConcreteBuilder1.produceSwimmingPool builder;;
  getHouse_listParts ConcreteBuilder1.getHouse builder.

Definition main_js : M unit :=
  director ← Director.constructor;
  clientCode_js director.

(** ** Sequences of calls *)

(** The parts a step operation can produce, one per method of the
    interface. *)
Inductive Part := Walls | Windows | Door | Roof | SwimmingPool | Garage | Garden.

#[global] Instance Part_eq_dec : EqDecision Part.
Proof. solve_decision. Defined.

#[global] Instance BuilderClass_eq_dec : EqDecision BuilderClass.
Proof. solve_decision. Defined.

(** The interface method that produces a part. *)
Definition method_of (p : Part) : Method :=
  match p with
  | Walls => produceWalls
  | Windows => produceWindows
  | Door => produceDoor
  | Roof => produceRoof
  | SwimmingPool => produceSwimmingPool
  | Garage => produceGarage
  | Garden => produceGarden
  end.

(** One step call [b.produceX()]. *)
Definition step (p : Part) (b : loc) : M unit := invoke (method_of p) b.

(** A sequence of step calls on one builder, in order. *)
Fixpoint steps (S : list Part) (b : loc) : M unit :=
  match S with
  | [] => mret ()
  | p :: S' => step p b;; steps S' b
  end.

(** Any operation a client can perform on a concrete builder. *)
Inductive BuilderOp := OpStep (p : Part) | OpReset | OpGetHouse.

(** The houses an operation hands out: [getHouse] returns one, the other
    operations return nothing. *)
Definition run_op (op : BuilderOp) (b : loc) : M (list (option loc)) :=
  match op with
  | OpStep p => step p b;; mret []
  | OpReset => reset b;; mret []
  | OpGetHouse => r ← getHouse b; mret [r]
  end.

(** A sequence of operations on one builder, in order, with the houses
    handed out on the way. *)
Fixpoint run_ops (ops : list BuilderOp) (b : loc) : M (list (option loc)) :=
  match ops with
  | [] => mret []
  | op :: ops' =>
      rs ← run_op op b;
      rs' ← run_ops ops' b;
      mret (rs ++ rs')
  end.

(** The label each class pushes for each part, read off the method
    bodies ([label_spec] below ties it to them). *)
Definition label (c : BuilderClass) (p : Part) : string :=
  match p with
  | Walls => match c with Class_CastleBuilder => "Walls marmol" | _ => "Walls" end
  | Windows => "Windows"
  | Door => "Door"
  | Roof => "Roof"
  | SwimmingPool => "Swimming pool"
  | Garage => "Garage"
  | Garden => "Garden"
  end.

(** The part a label of class [c] stands for. *)
Definition part_of_label (c : BuilderClass) (s : string) : option Part :=
  find (fun p => bool_decide (label c p = s))
       [Walls; Windows; Door; Roof; SwimmingPool; Garage; Garden].

Definition basic_recipe : list Part := [Walls; Windows; Door; Roof].
Definition full_recipe : list Part :=
  [Walls; Windows; Door; Roof; Garage; SwimmingPool; Garden].

(** ** Reading the store *)

(** The label sequence currently held by builder [b]. *)
Definition current_parts (σ : Store) (b : loc) : option (list string) :=
  o ← builders σ !! b;
  h ← house o;
  parts <$> houses σ !! h.

(** The label sequence of the house at [h]. *)
Definition parts_at (σ : Store) (h : loc) : option (list string) :=
  parts <$> houses σ !! h.

(** What has been logged when a computation ends. *)
Definition out_of {A} (r : Outcome A) : list string :=
  match r with
  | Return _ σ => console σ
  | Throw _ σ => console σ
  end.

(** ** Stores reached by the methods *)

(** The store after [this.house = new House()] on builder [b] of class
    [c]. *)
Definition after_reset (σ : Store) (b : loc) (c : BuilderClass) : Store :=
  let h := fresh (dom (houses σ)) in
  set_builders <[b := mkBuilder c (Some h)]> (set_houses <[h := mkHouse []]> σ).

(** The store once the labels of class [c] for the parts [S] have been
    pushed on the house at [h], which held [H]. *)
Definition pushed (c : BuilderClass) (h : loc) (S : list Part) (H : HouseObj)
    (σ : Store) : Store :=
  set_houses <[h := mkHouse (parts H ++ map (label c) S)]> σ.

(** The store after [new C(...)]: a fresh builder object, then [reset]. *)
Definition after_construct (σ : Store) (c : BuilderClass) : Store :=
  let b := fresh (dom (builders σ)) in
  after_reset (set_builders <[b := mkBuilder c None]> σ) b c.

(** The store after [b.getHouse().listParts()] when the house of [b]
    held [H]. *)
Definition after_listParts (σ : Store) (b : loc) (c : BuilderClass)
    (H : HouseObj) : Store :=
  set_console (fun out => out ++ [House.listParts_text (parts H)])
              (after_reset σ b c).

(** Director [d] is bound to builder [b], of class [c], whose current
    house is at [h] and holds [H]. *)
Definition bound (d b : loc) (c : BuilderClass) (h : loc) (σ : Store)
    (H : HouseObj) : Prop :=
  directors σ !! d = Some (mkDirector (Some b)) ∧
  builders σ !! b = Some (mkBuilder c (Some h)) ∧
  houses σ !! h = Some H.

(** ** The example scenario *)

(** [new C(bridge)] for each class; only [CastleBuilder] declares a
    parameter. *)
Definition construct (c : BuilderClass) (bridge : Value) : M loc :=
  match c with
  | Class_CheapHouseBuilder => CheapHouseBuilder.constructor
  | Class_CastleBuilder => CastleBuilder.constructor bridge
  | Class_ConcreteBuilder1 => ConcreteBuilder1.constructor
  end.

(** Bind a freshly constructed builder, run the basic recipe and list the
    parts of the house, then the full recipe and list again: [clientCode]
    without its headings and its custom house. *)
Definition scenario (c : BuilderClass) (bridge : Value) : M unit :=
  director ← Director.constructor;
  builder ← construct c bridge;
  Director.setBuilder director builder;;
  Director.buildBasicHouse director;;
  getHouse_listParts (getHouse_of c) builder;;
  Director.buildFullHouse director;;
  getHouse_listParts (getHouse_of c) builder.

(** ** A builder without a store *)

(** The builder as a value: the label sequence under construction.  Each
    operation yields the sequences it hands out and the next state. *)
Definition pure_op (c : BuilderClass) (op : BuilderOp) (cur : list string)
    : list (list string) * list string :=
  match op with
  | OpStep p => ([], cur ++ [label c p])
  | OpReset => ([], [])
  | OpGetHouse => ([cur], [])
  end.

Fixpoint pure_ops (c : BuilderClass) (ops : list BuilderOp) (cur : list string)
    : list (list string) * list string :=
  match ops with
  | [] => ([], cur)
  | op :: ops' =>
      let '(out, cur') := pure_op c op cur in
      let '(out', cur'') := pure_ops c ops' cur' in
      (out ++ out', cur'')
  end.

(** The label sequence behind a value returned by [getHouse]. *)
Definition parts_of_result (σ : Store) (r : option loc) : option (list string) :=
  h ← r; parts_at σ h.

(** ** Example stores *)

(** One builder of class [c] holding the labels [l]. *)
Definition one_builder_store (c : BuilderClass) (l : list string) : Store :=
  mkStore {[0 := mkHouse l]} {[0 := mkBuilder c (Some 0)]}
          {[0 := mkDirector (Some 0)]} [].

(** Two builders and a director bound to the first. *)
Definition two_builders_store : Store :=
  mkStore {[0 := mkHouse ["Walls"]; 1 := mkHouse []]}
          {[0 := mkBuilder Class_CheapHouseBuilder (Some 0);
            1 := mkBuilder Class_CastleBuilder (Some 1)]}
          {[0 := mkDirector (Some 0)]} [].

(** A director on which [setBuilder] was never called. *)
Definition unbound_store : Store := mkStore ∅ ∅ {[0 := mkDirector None]} [].

(** ** Well-formed stores *)

(** A builder object refers to an allocated house. *)
Definition builder_has_house (σ : Store) (o : BuilderObj) : Prop :=
  match house o with
  | Some h => is_Some (houses σ !! h)
  | None => False
  end.

(** A director is unbound or refers to an allocated builder. *)
Definition director_ok (σ : Store) (o : DirectorObj) : Prop :=
  match builder o with
  | Some b => is_Some (builders σ !! b)
  | None => True
  end.

(** What the constructors and methods guarantee of the stores they
    produce: every builder owns an allocated house, no two builders own
    the same house, and every bound director refers to an allocated
    builder. *)
Definition wf (σ : Store) : Prop :=
  map_Forall (fun _ o => builder_has_house σ o) (builders σ) ∧
  map_Forall (fun b1 o1 =>
    map_Forall (fun b2 o2 => house o1 = house o2 → b1 = b2) (builders σ))
    (builders σ) ∧
  map_Forall (fun _ o => director_ok σ o) (directors σ).

#[global] Instance builder_has_house_dec σ o : Decision (builder_has_house σ o).
Proof. unfold builder_has_house. destruct (house o); apply _. Defined.

#[global] Instance director_ok_dec σ o : Decision (director_ok σ o).
Proof. unfold director_ok. destruct (builder o); apply _. Defined.

#[global] Instance loc_option_eq_dec : EqDecision (option loc).
Proof. apply _. Defined.

#[global] Instance wf_dec σ : Decision (wf σ).
Proof. unfold wf. apply _. Defined.

(** One store is an extension of another: every object of the first is
    still allocated in the second, so references into the first remain
    valid. *)
Definition extends (σ σ' : Store) : Prop :=
  dom (houses σ) ⊆ dom (houses σ') ∧
  dom (builders σ) ⊆ dom (builders σ') ∧
  dom (directors σ) ⊆ dom (directors σ').

(** ** What a client can do *)

(** One statement of client code: a constructor call or a method call
    through a reference the client holds. *)
Inductive ClientOp :=
| NewBuilder (c : BuilderClass) (bridge : Value)
| NewDirector
| BuilderDo (b : loc) (op : BuilderOp)
| SetBuilder (d b : loc)
| BuildBasicHouse (d : loc)
| BuildFullHouse (d : loc)
| BuildLuxuryHouse (d : loc)
| ListParts (h : loc).

Definition run_client_op (op : ClientOp) : M unit :=
  match op with
  | NewBuilder c bridge => construct c bridge;; mret ()
  | NewDirector => Director.constructor;; mret ()
  | BuilderDo b op => run_op op b;; mret ()
  | SetBuilder d b => Director.setBuilder d b
  | BuildBasicHouse d => Director.buildBasicHouse d
  | BuildFullHouse d => Director.buildFullHouse d
  | BuildLuxuryHouse d => Director.buildLuxuryHouse d
  | ListParts h => House.listParts h
  end.

(** The references the statement goes through are references to objects
    of the store, as every reference of a running program is. *)
Definition client_op_ok (σ : Store) (op : ClientOp) : Prop :=
  match op with
  | NewBuilder _ _ | NewDirector => True
  | BuilderDo b _ => is_Some (builders σ !! b)
  | SetBuilder d b => is_Some (directors σ !! d) ∧ is_Some (builders σ !! b)
  | BuildBasicHouse d | BuildFullHouse d | BuildLuxuryHouse d =>
      is_Some (directors σ !! d)
  | ListParts h => is_Some (houses σ !! h)
  end.

(** The statement is a recipe call on a director whose [builder] field is
    [undefined]. *)
Definition recipe_on_unbound (σ : Store) (op : ClientOp) : Prop :=
  match op with
  | BuildBasicHouse d | BuildFullHouse d | BuildLuxuryHouse d =>
      directors σ !! d = Some (mkDirector None)
  | _ => False
  end.

(** ** Comparing stores *)

(** Between [σ] and [σ'] nothing differs but the contents of the house at
    [h]: no object was allocated, no builder or director written, nothing
    logged. *)
Definition only_house_changed (h : loc) (σ σ' : Store) : Prop :=
  builders σ' = builders σ ∧
  directors σ' = directors σ ∧
  console σ' = console σ ∧
  dom (houses σ') = dom (houses σ) ∧
  ∀ h0, h0 ≠ h → houses σ' !! h0 = houses σ !! h0.

(** Every house and builder of [σ] is in [σ'] as it was. *)
Definition untouched (σ σ' : Store) : Prop :=
  (∀ h H, houses σ !! h = Some H → houses σ' !! h = Some H) ∧
  (∀ b o, builders σ !! b = Some o → builders σ' !! b = Some o).

(** Where [clientCode] stands after each of its stages, started in [σ0]
    on director [d]: the director is bound to the builder [b] it made,
    which holds an empty house allocated since the start; the objects of
    [σ0] are as they were, apart from the binding of [d]; and [out] has
    been logged. *)
Definition client_inv (σ0 : Store) (d b : loc) (c : BuilderClass)
    (out : list string) (σ : Store) : Prop :=
  (∃ h, bound d b c h σ (mkHouse []) ∧ houses σ0 !! h = None) ∧
  builders σ0 !! b = None ∧
  untouched σ0 σ ∧
  (∀ d', d' ≠ d → directors σ !! d' = directors σ0 !! d') ∧
  console σ = console σ0 ++ out.

(** * Properties *)

(** ** Running computations *)

Lemma bind_Return {A B} (m : M A) (k : A → M B) σ a σ' :
  m σ = Return a σ' → (m ≫= k) σ = k a σ'.
Proof. intros E. unfold mbind, M_bind, bind. by rewrite E. Qed.

Lemma bind_Throw {A B} (m : M A) (k : A → M B) σ e σ' :
  m σ = Throw e σ' → (m ≫= k) σ = Throw e σ'.
Proof. intros E. unfold mbind, M_bind, bind. by rewrite E. Qed.

Lemma bind_ret {A B} (a : A) (k : A → M B) σ : (ret a ≫= k) σ = k a σ.
Proof. done. Qed.

Lemma read_builder_Some σ b o :
  builders σ !! b = Some o → read_builder b σ = Return o σ.
Proof. intros E. unfold read_builder. by rewrite E. Qed.

Lemma read_house_Some σ h H :
  houses σ !! h = Some H → read_house h σ = Return H σ.
Proof. intros E. unfold read_house. by rewrite E. Qed.

Lemma read_director_Some σ d o :
  directors σ !! d = Some o → read_director d σ = Return o σ.
Proof. intros E. unfold read_director. by rewrite E. Qed.

Lemma current_parts_Some σ b c h H :
  builders σ !! b = Some (mkBuilder c (Some h)) →
  houses σ !! h = Some H →
  current_parts σ b = Some (parts H).
Proof. intros Eb Eh. unfold current_parts. rewrite Eb. simpl. by rewrite Eh. Qed.

(** Equality of stores, field by field. *)
Lemma store_eq σ1 σ2 :
  houses σ1 = houses σ2 → builders σ1 = builders σ2 →
  directors σ1 = directors σ2 → console σ1 = console σ2 → σ1 = σ2.
Proof. destruct σ1, σ2; simpl; congruence. Qed.

(** ** The step operations *)

(** Every step method of every class is a push of that class's label. *)
Lemma label_spec c p this :
  method_of p c (prototype c) this = house_parts_push this (label c p).
Proof. by destruct c, p. Qed.

Lemma house_parts_push_spec σ b c h H s :
  builders σ !! b = Some (mkBuilder c (Some h)) →
  houses σ !! h = Some H →
  house_parts_push b s σ
  = Return () (set_houses <[h := mkHouse (parts H ++ [s])]> σ).
Proof.
  intros Eb Eh. unfold house_parts_push.
  rewrite (bind_Return _ _ _ _ _ (read_builder_Some _ _ _ Eb)). simpl.
  rewrite bind_ret. unfold House.parts_push.
  by rewrite (bind_Return _ _ _ _ _ (read_house_Some _ _ _ Eh)).
Qed.

Lemma step_spec σ b c h H p :
  builders σ !! b = Some (mkBuilder c (Some h)) →
  houses σ !! h = Some H →
  step p b σ = Return () (set_houses <[h := mkHouse (parts H ++ [label c p])]> σ).
Proof.
  intros Eb Eh. unfold step, invoke.
  rewrite (bind_Return _ _ _ _ _ (read_builder_Some _ _ _ Eb)). simpl.
  rewrite label_spec. by apply (house_parts_push_spec _ _ c h H).
Qed.

Lemma steps_spec S : ∀ σ b c h H,
  builders σ !! b = Some (mkBuilder c (Some h)) →
  houses σ !! h = Some H →
  steps S b σ
  = Return () (set_houses <[h := mkHouse (parts H ++ map (label c) S)]> σ).
Proof.
  induction S as [|p S IH]; intros σ b c h H Eb Eh; simpl.
  - rewrite app_nil_r. unfold mret, M_ret, ret. f_equal.
    apply store_eq; simpl; try done.
    rewrite insert_id; [done|]. by destruct H.
  - rewrite (bind_Return _ _ _ _ _ (step_spec _ _ _ _ _ p Eb Eh)).
    rewrite (IH _ b c h (mkHouse (parts H ++ [label c p]))); simpl.
    + f_equal. apply store_eq; simpl; try done.
      by rewrite insert_insert_eq, <- app_assoc.
    + done.
    + by rewrite lookup_insert_eq.
Qed.

(** ** [reset] and [getHouse] *)

Lemma reset_of_spec σ b o c :
  builders σ !! b = Some o →
  reset_of c b σ = Return () (after_reset σ b (cls o)).
Proof.
  intros Eb.
  assert (reset_of c b = (h ← House.new; write_house b h)) as -> by by destruct c.
  unfold House.new. erewrite bind_Return; [|reflexivity].
  unfold write_house. erewrite bind_Return; [|by apply read_builder_Some].
  done.
Qed.

Lemma reset_spec σ b o :
  builders σ !! b = Some o →
  reset b σ = Return () (after_reset σ b (cls o)).
Proof.
  intros Eb. unfold reset.
  rewrite (bind_Return _ _ _ _ _ (read_builder_Some _ _ _ Eb)).
  by apply reset_of_spec.
Qed.

Lemma getHouse_of_spec σ b o c :
  builders σ !! b = Some o →
  getHouse_of c b σ = Return (house o) (after_reset σ b (cls o)).
Proof.
  intros Eb.
  assert (getHouse_of c b
          = (o ← read_builder b; let result := house o in
             reset_of c b;; mret result)) as -> by by destruct c.
  rewrite (bind_Return _ _ _ _ _ (read_builder_Some _ _ _ Eb)). simpl.
  by rewrite (bind_Return _ _ _ _ _ (reset_of_spec _ _ _ c Eb)).
Qed.

Lemma getHouse_spec σ b o :
  builders σ !! b = Some o →
  getHouse b σ = Return (house o) (after_reset σ b (cls o)).
Proof.
  intros Eb. unfold getHouse.
  rewrite (bind_Return _ _ _ _ _ (read_builder_Some _ _ _ Eb)).
  by apply getHouse_of_spec.
Qed.

Lemma fresh_house_None σ : houses σ !! fresh (dom (houses σ)) = None.
Proof. apply not_elem_of_dom, is_fresh. Qed.

Lemma after_reset_builder σ b c :
  builders (after_reset σ b c) !! b
  = Some (mkBuilder c (Some (fresh (dom (houses σ))))).
Proof. unfold after_reset. simpl. by rewrite lookup_insert_eq. Qed.

Lemma after_reset_fresh σ b c :
  houses (after_reset σ b c) !! fresh (dom (houses σ)) = Some (mkHouse []).
Proof. unfold after_reset. simpl. by rewrite lookup_insert_eq. Qed.

Lemma after_reset_old σ b c h H :
  houses σ !! h = Some H → houses (after_reset σ b c) !! h = Some H.
Proof.
  intros Eh. unfold after_reset. simpl. rewrite lookup_insert_ne; [done|].
  intros <-. by rewrite fresh_house_None in Eh.
Qed.

(** ** Sequences of operations against the builder as a value *)

(** [run_ops] on a builder whose current house is at [h] realises
    [pure_ops]: it completes, the houses handed out hold the label
    sequences the pure builder hands out, the builder ends on the pure
    builder's final sequence, and every other house of the store is left
    as it was. *)
Lemma run_ops_spec ops : ∀ σ b c h H,
  builders σ !! b = Some (mkBuilder c (Some h)) →
  houses σ !! h = Some H →
  ∃ rs σ',
    run_ops ops b σ = Return rs σ' ∧
    map (parts_of_result σ') rs = map Some (pure_ops c ops (parts H)).1 ∧
    current_parts σ' b = Some (pure_ops c ops (parts H)).2 ∧
    (∃ o, builders σ' !! b = Some o ∧ cls o = c) ∧
    (∀ h0 H0, h0 ≠ h → houses σ !! h0 = Some H0 → houses σ' !! h0 = Some H0).
Proof.
  induction ops as [|op ops IH]; intros σ b c h H Eb Eh.
  - exists [], σ. simpl. split; [done|]. split; [done|].
    split; [|split; [by eexists|done]].
    unfold current_parts. rewrite Eb. simpl. by rewrite Eh.
  - destruct op as [p| |]; simpl.
    + set (H1 := mkHouse (parts H ++ [label c p])).
      set (σ1 := set_houses <[h := H1]> σ).
      destruct (IH σ1 b c h H1) as (rs & σ' & E & Hrs & Hcur & Hb & Hfr);
        [done|simpl; by rewrite lookup_insert_eq|].
      exists rs, σ'. split.
      { erewrite bind_Return;
          [|erewrite bind_Return; [|by apply (step_spec _ _ c h H)]; reflexivity].
        erewrite bind_Return; [|exact E]. reflexivity. }
      simpl in Hrs, Hcur.
      destruct (pure_ops c ops (parts H ++ [label c p])) as [out cur].
      simpl in *. split; [done|]. split; [done|]. split; [done|].
      intros h0 H0 Hne Eh0. apply Hfr; [done|]. by rewrite lookup_insert_ne.
    + set (σ1 := after_reset σ b c).
      destruct (IH σ1 b c _ (mkHouse []) (after_reset_builder σ b c)
                  (after_reset_fresh σ b c))
        as (rs & σ' & E & Hrs & Hcur & Hb & Hfr).
      exists rs, σ'. split.
      { erewrite bind_Return;
          [|erewrite bind_Return; [|by apply (reset_spec _ _ _ Eb)]; reflexivity].
        erewrite bind_Return; [|exact E]. reflexivity. }
      simpl in Hrs, Hcur.
      destruct (pure_ops c ops []) as [out cur].
      simpl in *. split; [done|]. split; [done|]. split; [done|].
      intros h0 H0 Hne Eh0. apply Hfr; [|by apply (after_reset_old σ b c)].
      intros ->. by rewrite fresh_house_None in Eh0.
    + set (σ1 := after_reset σ b c).
      destruct (IH σ1 b c _ (mkHouse []) (after_reset_builder σ b c)
                  (after_reset_fresh σ b c))
        as (rs & σ' & E & Hrs & Hcur & Hb & Hfr).
      assert (houses σ' !! h = Some H) as Eh'.
      { apply Hfr; [|by apply (after_reset_old σ b c)].
        intros ->. by rewrite fresh_house_None in Eh. }
      exists (Some h :: rs), σ'. split.
      { erewrite bind_Return;
          [|erewrite bind_Return; [|by apply (getHouse_spec _ _ _ Eb)]; reflexivity].
        erewrite bind_Return; [|exact E]. reflexivity. }
      simpl in Hrs, Hcur.
      destruct (pure_ops c ops []) as [out cur].
      simpl in *. split.
      { f_equal; [|done]. unfold parts_at. by rewrite Eh'. }
      split; [done|]. split; [done|].
      intros h0 H0 Hne Eh0. apply Hfr; [|by apply (after_reset_old σ b c)].
      intros ->. by rewrite fresh_house_None in Eh0.
Qed.

(** ** Builders on their own *)

(** A freshly reset builder, a sequence of steps, then [getHouse]: the
    house returned holds the labels of the steps, in call order. *)
Lemma reset_steps_getHouse σ b o (S : list Part) :
  builders σ !! b = Some o →
  ∃ r σ',
    (reset b;; steps S b;; getHouse b) σ = Return (Some r) σ' ∧
    houses σ' !! r = Some (mkHouse (map (label (cls o)) S)).
Proof.
  intros Eb. set (c := cls o). set (h := fresh (dom (houses σ))).
  set (σ1 := after_reset σ b c).
  set (σ2 := set_houses <[h := mkHouse ([] ++ map (label c) S)]> σ1).
  assert (builders σ2 !! b = Some (mkBuilder c (Some h))) as Eb2
    by apply after_reset_builder.
  assert (houses σ2 !! h = Some (mkHouse (map (label c) S))) as Eh2
    by (simpl; by rewrite lookup_insert_eq).
  exists h, (after_reset σ2 b c). split; [|by apply after_reset_old].
  rewrite (bind_Return _ _ _ _ _ (reset_spec _ _ _ Eb)).
  rewrite (bind_Return _ _ _ _ σ2
             (steps_spec S _ b c h (mkHouse [])
                (after_reset_builder _ _ _) (after_reset_fresh _ _ _))).
  by rewrite (getHouse_spec _ _ _ Eb2).
Qed.

(** C1.  On a freshly reset concrete builder, any sequence [S] of step
    calls followed by [getHouse] returns a house whose label sequence is
    exactly the labels of the steps in [S], in call order (nothing
    reordered, nothing dropped or merged), and [listParts] on it logs
    those labels joined in that order. *)
Theorem steps_order_preserved σ b o (S : list Part) :
  builders σ !! b = Some o →
  ∃ r σ',
    (reset b;; steps S b;; getHouse b) σ = Return (Some r) σ' ∧
    parts_at σ' r = Some (map (label (cls o)) S) ∧
    out_of (House.listParts r σ')
    = console σ' ++ [House.listParts_text (map (label (cls o)) S)].
Proof.
  intros Eb.
  destruct (reset_steps_getHouse σ b o S Eb) as (r & σ' & E & Eh).
  exists r, σ'. split; [done|]. split.
  - unfold parts_at. by rewrite Eh.
  - unfold House.listParts.
    by rewrite (bind_Return _ _ _ _ _ (read_house_Some _ _ _ Eh)).
Qed.

Lemma steps_order_preserved_witness :
  ∃ r σ',
    (reset 0;; steps [Roof; Walls; Roof] 0;; getHouse 0)
      (mkStore ∅ {[0 := mkBuilder Class_CastleBuilder None]} ∅ [])
    = Return (Some r) σ' ∧
    parts_at σ' r = Some ["Roof"; "Walls marmol"; "Roof"] ∧
    out_of (House.listParts r σ')
    = console σ' ++ [House.listParts_text ["Roof"; "Walls marmol"; "Roof"]].
Proof.
  apply (steps_order_preserved
           (mkStore ∅ {[0 := mkBuilder Class_CastleBuilder None]} ∅ [])
           0 (mkBuilder Class_CastleBuilder None) [Roof; Walls; Roof]).
  reflexivity.
Defined.

(** C5.  In any state of a concrete builder, [getHouse] followed at once
    by another [getHouse] returns, the second time, a house with an empty
    label sequence. *)
Theorem getHouse_twice_empty σ b o :
  builders σ !! b = Some o →
  ∃ r σ',
    (getHouse b;; getHouse b) σ = Return (Some r) σ' ∧
    parts_at σ' r = Some [].
Proof.
  intros Eb. set (σ1 := after_reset σ b (cls o)).
  exists (fresh (dom (houses σ))), (after_reset σ1 b (cls o)). split.
  - rewrite (bind_Return _ _ _ _ _ (getHouse_spec _ _ _ Eb)).
    by rewrite (getHouse_spec _ _ _ (after_reset_builder σ b (cls o))).
  - unfold parts_at.
    by rewrite (after_reset_old _ _ _ _ _ (after_reset_fresh σ b (cls o))).
Qed.

Lemma getHouse_twice_empty_witness :
  ∃ r σ',
    (getHouse 0;; getHouse 0)
      (one_builder_store Class_CheapHouseBuilder ["Walls"; "Door"])
    = Return (Some r) σ' ∧
    parts_at σ' r = Some [].
Proof.
  apply (getHouse_twice_empty
           (one_builder_store Class_CheapHouseBuilder ["Walls"; "Door"])
           0 (mkBuilder Class_CheapHouseBuilder (Some 0))).
  reflexivity.
Defined.

(** C8.  Once [getHouse] has returned the house at [h], the builder holds
    a fresh empty house, and whatever operations are then run on the
    builder (steps, [reset], further [getHouse] calls, in any number and
    order), they all complete and the house at [h] keeps its label
    sequence. *)
Theorem retrieved_house_detached σ b c h H (ops : list BuilderOp) :
  builders σ !! b = Some (mkBuilder c (Some h)) →
  houses σ !! h = Some H →
  ∃ σ1 rs σ2,
    getHouse b σ = Return (Some h) σ1 ∧
    parts_at σ1 h = Some (parts H) ∧
    current_parts σ1 b = Some [] ∧
    run_ops ops b σ1 = Return rs σ2 ∧
    parts_at σ2 h = Some (parts H).
Proof.
  intros Eb Eh.
  pose proof (after_reset_old σ b c h H Eh) as Eh1.
  destruct (run_ops_spec ops _ _ _ _ _ (after_reset_builder σ b c)
              (after_reset_fresh σ b c)) as (rs & σ2 & E & _ & _ & _ & Hfr).
  exists (after_reset σ b c), rs, σ2.
  split; [by rewrite (getHouse_spec _ _ _ Eb)|].
  split; [unfold parts_at; by rewrite Eh1|].
  split.
  - unfold current_parts. rewrite after_reset_builder.
    cbn -[after_reset fresh]. by rewrite after_reset_fresh.
  - split; [done|]. unfold parts_at. rewrite (Hfr h H); [done| |done].
    intros E'. rewrite E' in Eh. by rewrite fresh_house_None in Eh.
Qed.

Lemma retrieved_house_detached_witness :
  ∃ σ1 rs σ2,
    getHouse 0 (one_builder_store Class_CheapHouseBuilder ["Walls"; "Door"])
    = Return (Some 0) σ1 ∧
    parts_at σ1 0 = Some ["Walls"; "Door"] ∧
    current_parts σ1 0 = Some [] ∧
    run_ops [OpStep Roof; OpGetHouse; OpStep Garden; OpReset] 0 σ1
    = Return rs σ2 ∧
    parts_at σ2 0 = Some ["Walls"; "Door"].
Proof.
  apply (retrieved_house_detached
           (one_builder_store Class_CheapHouseBuilder ["Walls"; "Door"])
           0 Class_CheapHouseBuilder 0 (mkHouse ["Walls"; "Door"])
           [OpStep Roof; OpGetHouse; OpStep Garden; OpReset]);
    reflexivity.
Defined.

(** ** The Director *)

Section bound_director.
(** A director [d] bound to builder [b], of class [c], whose current
  house is at [h]. *)
Variables (d b : loc) (c : BuilderClass) (h : loc).

Local Abbreviation bound := (bound d b c h).
Local Abbreviation pushed := (pushed c h).

Lemma bound_pushed σ H S :
  bound σ H → bound (pushed S H σ) (mkHouse (parts H ++ map (label c) S)).
Proof.
  intros (Ed & Eb & Eh). repeat split; simpl; try done.
  by rewrite lookup_insert_eq.
Qed.

Lemma pushed_pushed σ H S1 S2 :
  pushed S2 (mkHouse (parts H ++ map (label c) S1)) (pushed S1 H σ)
  = pushed (S1 ++ S2) H σ.
Proof.
  unfold pushed. apply store_eq; simpl; try done.
  by rewrite insert_insert_eq, map_app, app_assoc.
Qed.

Lemma builder_call_spec σ H p :
  bound σ H →
  Director.builder_call d (method_of p) σ = Return () (pushed [p] H σ).
Proof.
  intros (Ed & Eb & Eh). unfold Director.builder_call.
  rewrite (bind_Return _ _ _ _ _ (read_director_Some _ _ _ Ed)). simpl.
  rewrite bind_ret. by apply (step_spec _ _ c h H).
Qed.

(** Two calls in a row. *)
Lemma builder_call_then σ H p (k : M unit) :
  bound σ H →
  (Director.builder_call d (method_of p);; k) σ = k (pushed [p] H σ).
Proof. intros B. by rewrite (bind_Return _ _ _ _ _ (builder_call_spec _ _ p B)). Qed.

Lemma buildBasicHouse_pushed σ H :
  bound σ H →
  Director.buildBasicHouse d σ = Return () (pushed basic_recipe H σ).
Proof.
  intros B. unfold Director.buildBasicHouse.
  rewrite (builder_call_then _ _ Walls _ B).
  pose proof (bound_pushed _ _ [Walls] B) as B1.
  rewrite (builder_call_then _ _ Windows _ B1), pushed_pushed.
  pose proof (bound_pushed _ _ [Walls; Windows] B) as B2.
  rewrite (builder_call_then _ _ Door _ B2), pushed_pushed.
  pose proof (bound_pushed _ _ [Walls; Windows; Door] B) as B3.
  etrans; [apply (builder_call_spec _ _ Roof B3)|]. by rewrite pushed_pushed.
Qed.

Lemma buildFullHouse_pushed σ H :
  bound σ H →
  Director.buildFullHouse d σ = Return () (pushed full_recipe H σ).
Proof.
  intros B. unfold Director.buildFullHouse.
  rewrite (builder_call_then _ _ Walls _ B).
  pose proof (bound_pushed _ _ [Walls] B) as B1.
  rewrite (builder_call_then _ _ Windows _ B1), pushed_pushed.
  pose proof (bound_pushed _ _ [Walls; Windows] B) as B2.
  rewrite (builder_call_then _ _ Door _ B2), pushed_pushed.
  pose proof (bound_pushed _ _ [Walls; Windows; Door] B) as B3.
  rewrite (builder_call_then _ _ Roof _ B3), pushed_pushed.
  pose proof (bound_pushed _ _ [Walls; Windows; Door; Roof] B) as B4.
  rewrite (builder_call_then _ _ Garage _ B4), pushed_pushed.
  pose proof (bound_pushed _ _ [Walls; Windows; Door; Roof; Garage] B) as B5.
  rewrite (builder_call_then _ _ SwimmingPool _ B5), pushed_pushed.
  pose proof (bound_pushed _ _ [Walls; Windows; Door; Roof; Garage; SwimmingPool] B) as B6.
  etrans; [apply (builder_call_spec _ _ Garden B6)|]. by rewrite pushed_pushed.
Qed.

Lemma steps_pushed σ H S :
  bound σ H → steps S b σ = Return () (pushed S H σ).
Proof. intros (_ & Eb & Eh). by apply steps_spec. Qed.

Lemma current_parts_pushed σ H S :
  bound σ H →
  current_parts (pushed S H σ) b = Some (parts H ++ map (label c) S).
Proof.
  intros (_ & Eb & _). unfold current_parts, pushed. simpl.
  rewrite Eb. simpl. by rewrite lookup_insert_eq.
Qed.

End bound_director.

(** The compiled script's full recipe is the same method. *)
Lemma buildLuxuryHouse_buildFullHouse :
  Director.buildLuxuryHouse = Director.buildFullHouse.
Proof. reflexivity. Qed.

(** C2.  With any builder bound, in any state, one run of the full recipe
    ([buildFullHouse], [buildLuxuryHouse] in the compiled script) is
    exactly the seven step calls walls, windows, door, roof, garage,
    swimming pool, garden on that builder: it pushes the builder's seven
    labels for these parts, in that order, after the labels its current
    house already holds. *)
Theorem buildFullHouse_seven_steps σ d b c h H :
  directors σ !! d = Some (mkDirector (Some b)) →
  builders σ !! b = Some (mkBuilder c (Some h)) →
  houses σ !! h = Some H →
  ∃ σ',
    Director.buildFullHouse d σ = Return () σ' ∧
    Director.buildLuxuryHouse d σ = Return () σ' ∧
    steps [Walls; Windows; Door; Roof; Garage; SwimmingPool; Garden] b σ
    = Return () σ' ∧
    current_parts σ' b
    = Some (parts H ++ [label c Walls; label c Windows; label c Door;
                        label c Roof; label c Garage; label c SwimmingPool;
                        label c Garden]).
Proof.
  intros Ed Eb Eh. assert (bound d b c h σ H) as B by done.
  exists (pushed c h full_recipe H σ).
  split; [by apply (buildFullHouse_pushed d b)|].
  split; [rewrite buildLuxuryHouse_buildFullHouse; by apply (buildFullHouse_pushed d b)|].
  split; [by apply (steps_pushed d)|].
  by apply (current_parts_pushed d).
Qed.

Lemma buildFullHouse_seven_steps_witness :
  ∃ σ',
    Director.buildFullHouse 0
      (one_builder_store Class_CastleBuilder ["Garden"]) = Return () σ' ∧
    Director.buildLuxuryHouse 0
      (one_builder_store Class_CastleBuilder ["Garden"]) = Return () σ' ∧
    steps [Walls; Windows; Door; Roof; Garage; SwimmingPool; Garden] 0
      (one_builder_store Class_CastleBuilder ["Garden"]) = Return () σ' ∧
    current_parts σ' 0
    = Some ["Garden"; "Walls marmol"; "Windows"; "Door"; "Roof"; "Garage";
            "Swimming pool"; "Garden"].
Proof.
  apply (buildFullHouse_seven_steps
           (one_builder_store Class_CastleBuilder ["Garden"])
           0 0 Class_CastleBuilder 0 (mkHouse ["Garden"]));
    reflexivity.
Defined.

(** C3.  With any builder bound, in any state, one run of
    [buildBasicHouse] is exactly the four step calls walls, windows, door,
    roof on that builder: it pushes the builder's four labels for these
    parts, in that order, after the labels its current house already
    holds. *)
Theorem buildBasicHouse_four_steps σ d b c h H :
  directors σ !! d = Some (mkDirector (Some b)) →
  builders σ !! b = Some (mkBuilder c (Some h)) →
  houses σ !! h = Some H →
  ∃ σ',
    Director.buildBasicHouse d σ = Return () σ' ∧
    steps [Walls; Windows; Door; Roof] b σ = Return () σ' ∧
    current_parts σ' b
    = Some (parts H ++ [label c Walls; label c Windows; label c Door;
                        label c Roof]).
Proof.
  intros Ed Eb Eh. assert (bound d b c h σ H) as B by done.
  exists (pushed c h basic_recipe H σ).
  split; [by apply (buildBasicHouse_pushed d b)|].
  split; [by apply (steps_pushed d)|].
  by apply (current_parts_pushed d).
Qed.

Lemma buildBasicHouse_four_steps_witness :
  ∃ σ',
    Director.buildBasicHouse 0
      (one_builder_store Class_CheapHouseBuilder ["Roof"]) = Return () σ' ∧
    steps [Walls; Windows; Door; Roof] 0
      (one_builder_store Class_CheapHouseBuilder ["Roof"]) = Return () σ' ∧
    current_parts σ' 0 = Some ["Roof"; "Walls"; "Windows"; "Door"; "Roof"].
Proof.
  apply (buildBasicHouse_four_steps
           (one_builder_store Class_CheapHouseBuilder ["Roof"])
           0 0 Class_CheapHouseBuilder 0 (mkHouse ["Roof"]));
    reflexivity.
Defined.

(** A director that has just been constructed has no builder. *)
Lemma Director_constructor_unbound σ :
  ∃ d σ', Director.constructor σ = Return d σ' ∧
          directors σ' !! d = Some (mkDirector None) ∧
          houses σ' = houses σ ∧ builders σ' = builders σ.
Proof.
  eexists _, _. split; [reflexivity|]. simpl. by rewrite lookup_insert_eq.
Qed.

(** C4.  On a director whose [builder] field was never set, every recipe
    throws a [TypeError] at its first step (it does not return normally),
    and the store is left as it was: no house is allocated and no label is
    pushed. *)
Theorem recipe_unbound_throws σ d :
  directors σ !! d = Some (mkDirector None) →
  Director.buildBasicHouse d σ = Throw TypeError σ ∧
  Director.buildFullHouse d σ = Throw TypeError σ ∧
  Director.buildLuxuryHouse d σ = Throw TypeError σ.
Proof.
  intros Ed.
  assert (Director.builder_call d produceWalls σ = Throw TypeError σ) as E.
  { unfold Director.builder_call.
    by rewrite (bind_Return _ _ _ _ _ (read_director_Some _ _ _ Ed)). }
  repeat split.
  - unfold Director.buildBasicHouse. by rewrite (bind_Throw _ _ _ _ _ E).
  - unfold Director.buildFullHouse. by rewrite (bind_Throw _ _ _ _ _ E).
  - unfold Director.buildLuxuryHouse. by rewrite (bind_Throw _ _ _ _ _ E).
Qed.

Lemma recipe_unbound_throws_witness :
  Director.buildBasicHouse 0 unbound_store
  = Throw TypeError unbound_store ∧
  Director.buildFullHouse 0 unbound_store
  = Throw TypeError unbound_store ∧
  Director.buildLuxuryHouse 0 unbound_store
  = Throw TypeError unbound_store.
Proof.
  apply (recipe_unbound_throws unbound_store 0).
  reflexivity.
Defined.

(** C9.  [setBuilder] on a director bound to [b] rebinds it to [b'] and
    touches nothing else: the builders, the houses, and so the label
    sequence held by [b], are as before. *)
Theorem setBuilder_rebinds σ d b b' :
  directors σ !! d = Some (mkDirector (Some b)) →
  ∃ σ',
    Director.setBuilder d b' σ = Return () σ' ∧
    directors σ' !! d = Some (mkDirector (Some b')) ∧
    builders σ' = builders σ ∧
    houses σ' = houses σ ∧
    current_parts σ' b = current_parts σ b.
Proof.
  intros Ed. eexists. split.
  - unfold Director.setBuilder.
    by rewrite (bind_Return _ _ _ _ _ (read_director_Some _ _ _ Ed)).
  - simpl. by rewrite lookup_insert_eq.
Qed.

Lemma setBuilder_rebinds_witness :
  ∃ σ',
    Director.setBuilder 0 1 two_builders_store = Return () σ' ∧
    directors σ' !! 0 = Some (mkDirector (Some 1)) ∧
    builders σ' = builders two_builders_store ∧
    houses σ' = houses two_builders_store ∧
    current_parts σ' 0 = current_parts two_builders_store 0.
Proof.
  apply (setBuilder_rebinds two_builders_store 0 0 1).
  reflexivity.
Defined.

(** ** Constructors *)

Lemma construct_spec c bridge σ :
  construct c bridge σ
  = Return (fresh (dom (builders σ))) (after_construct σ c).
Proof.
  assert (construct c bridge
          = (this ← alloc_builder c; reset_of c this;; mret this)) as ->
    by by destruct c.
  set (b := fresh (dom (builders σ))).
  set (σ0 := set_builders <[b := mkBuilder c None]> σ).
  assert (builders σ0 !! b = Some (mkBuilder c None)) as Eb
    by (simpl; by rewrite lookup_insert_eq).
  erewrite bind_Return; [|reflexivity].
  by rewrite (bind_Return _ _ _ _ _ (reset_of_spec _ _ _ c Eb)).
Qed.

Lemma after_construct_builder σ c :
  builders (after_construct σ c) !! fresh (dom (builders σ))
  = Some (mkBuilder c (Some (fresh (dom (houses σ))))).
Proof. unfold after_construct. by rewrite after_reset_builder. Qed.

Lemma after_construct_house σ c :
  houses (after_construct σ c) !! fresh (dom (houses σ)) = Some (mkHouse []).
Proof. unfold after_construct, after_reset. simpl. by rewrite lookup_insert_eq. Qed.

Lemma after_construct_directors σ c :
  directors (after_construct σ c) = directors σ.
Proof. done. Qed.

Lemma after_construct_console σ c :
  console (after_construct σ c) = console σ.
Proof. done. Qed.

Lemma fresh_builder_None σ : builders σ !! fresh (dom (builders σ)) = None.
Proof. apply not_elem_of_dom, is_fresh. Qed.

(** Constructing a builder leaves the builders already there alone, with
    their houses. *)
Lemma after_construct_old σ c b o h H :
  builders σ !! b = Some o → houses σ !! h = Some H →
  builders (after_construct σ c) !! b = Some o ∧
  houses (after_construct σ c) !! h = Some H.
Proof.
  intros Eb Eh. unfold after_construct, after_reset. simpl. split.
  - rewrite insert_insert_eq, lookup_insert_ne; [done|].
    intros E. rewrite <- E in Eb. by rewrite fresh_builder_None in Eb.
  - rewrite lookup_insert_ne; [done|].
    intros E. rewrite <- E in Eh. by rewrite fresh_house_None in Eh.
Qed.

(** ** Listing the parts *)

Lemma getHouse_listParts_spec σ d b c h H :
  bound d b c h σ H →
  getHouse_listParts (getHouse_of c) b σ
  = Return () (after_listParts σ b c H) ∧
  bound d b c (fresh (dom (houses σ))) (after_listParts σ b c H) (mkHouse []).
Proof.
  intros (Ed & Eb & Eh). split.
  - unfold getHouse_listParts.
    rewrite (bind_Return _ _ _ _ _ (getHouse_of_spec _ _ _ c Eb)). simpl.
    rewrite bind_ret. unfold House.listParts.
    by rewrite (bind_Return _ _ _ _ _
                  (read_house_Some _ _ _ (after_reset_old σ b c h H Eh))).
  - split; [done|]. split; [apply after_reset_builder|apply after_reset_fresh].
Qed.

(** The example scenario, for a builder of any class: it completes and
    logs two lines, the listing of the basic house and the listing of the
    full house. *)
Lemma scenario_spec c bridge σ :
  ∃ σ', scenario c bridge σ = Return () σ' ∧
        console σ'
        = console σ ++ [House.listParts_text (map (label c) basic_recipe);
                        House.listParts_text (map (label c) full_recipe)].
Proof.
  unfold scenario.
  set (d := fresh (dom (directors σ))).
  set (σa := set_directors <[d := mkDirector None]> σ).
  set (b := fresh (dom (builders σa))).
  set (h := fresh (dom (houses σa))).
  set (σb := after_construct σa c).
  set (σc := set_directors <[d := mkDirector (Some b)]> σb).
  assert (bound d b c h σc (mkHouse [])) as B.
  { split; [simpl; by rewrite lookup_insert_eq|].
    split; [apply after_construct_builder|apply after_construct_house]. }
  set (σd := pushed c h basic_recipe (mkHouse []) σc).
  pose proof (bound_pushed d b c h _ _ basic_recipe B) as Bd. fold σd in Bd.
  destruct (getHouse_listParts_spec _ _ _ _ _ _ Bd) as [Ee Be].
  set (σe := after_listParts σd b c (mkHouse (map (label c) basic_recipe))) in *.
  set (h2 := fresh (dom (houses σd))) in *.
  set (σf := pushed c h2 full_recipe (mkHouse []) σe).
  pose proof (bound_pushed d b c h2 _ _ full_recipe Be) as Bf. fold σf in Bf.
  destruct (getHouse_listParts_spec _ _ _ _ _ _ Bf) as [Eg _].
  eexists. split.
  - erewrite bind_Return; [|reflexivity]. fold d σa.
    rewrite (bind_Return _ _ _ _ _ (construct_spec c bridge σa)). fold b σb.
    erewrite (bind_Return (Director.setBuilder d b)); [|].
    2:{ unfold Director.setBuilder. erewrite bind_Return; [reflexivity|].
        apply read_director_Some. simpl. by rewrite lookup_insert_eq. }
    fold σc.
    rewrite (bind_Return _ _ _ _ _ (buildBasicHouse_pushed d b c h _ _ B)).
    fold σd. rewrite (bind_Return _ _ _ _ _ Ee).
    rewrite (bind_Return _ _ _ _ _ (buildFullHouse_pushed d b c h2 _ _ Be)).
    fold σf. exact Eg.
  - simpl. by rewrite <- app_assoc.
Qed.

(** The text [listParts] logs always ends with a line feed. *)
Lemma listParts_text_LF l :
  House.listParts_text l = ("House parts: " +:+ House.join ", " l) +:+ House.LF.
Proof.
  unfold House.listParts_text. generalize (House.join ", " l). intros s.
  by simpl.
Qed.

(** C6, as the code has it.  Binding a freshly constructed builder and
    running the basic recipe, [getHouse] and [listParts], then the full
    recipe, [getHouse] and [listParts] again, always completes and logs two
    lines.  Each is ["House parts: "], the builder's labels joined by
    [", "], and a line feed; the walls label is ["Walls"] for
    [CheapHouseBuilder] and [ConcreteBuilder1] and ["Walls marmol"] for
    [CastleBuilder]. *)
Theorem scenario_logs σ bridge :
  (∃ σ', scenario Class_CheapHouseBuilder bridge σ = Return () σ' ∧
     console σ'
     = console σ
       ++ ["House parts: Walls, Windows, Door, Roof" +:+ House.LF;
           "House parts: Walls, Windows, Door, Roof, Garage, Swimming pool, Garden"
           +:+ House.LF]) ∧
  (∃ σ', scenario Class_CastleBuilder bridge σ = Return () σ' ∧
     console σ'
     = console σ
       ++ ["House parts: Walls marmol, Windows, Door, Roof" +:+ House.LF;
           "House parts: Walls marmol, Windows, Door, Roof, Garage, Swimming pool, Garden"
           +:+ House.LF]) ∧
  (∃ σ', scenario Class_ConcreteBuilder1 bridge σ = Return () σ' ∧
     console σ'
     = console σ
       ++ ["House parts: Walls, Windows, Door, Roof" +:+ House.LF;
           "House parts: Walls, Windows, Door, Roof, Garage, Swimming pool, Garden"
           +:+ House.LF]).
Proof.
  split; [|split].
  - apply (scenario_spec Class_CheapHouseBuilder).
  - apply (scenario_spec Class_CastleBuilder).
  - apply (scenario_spec Class_ConcreteBuilder1).
Qed.

(** C6, as stated, fails on the builder the client code itself uses: with
    [new CastleBuilder(4)] on the empty store the two logged lines are not
    the two literal texts of the claim (the walls label is
    ["Walls marmol"], and each line ends with a line feed). *)
Lemma scenario_text_not_literal :
  out_of (scenario Class_CastleBuilder (VNumber 4) empty_store)
  ≠ ["House parts: Walls, Windows, Door, Roof";
     "House parts: Walls, Windows, Door, Roof, Garage, Swimming pool, Garden"].
Proof. vm_compute. discriminate. Qed.

(** Nor do the literal texts come out for [CheapHouseBuilder], whose labels
    are the ones of the claim: the line feed remains. *)
Lemma scenario_text_line_feed :
  out_of (scenario Class_CheapHouseBuilder VUndefined empty_store)
  ≠ ["House parts: Walls, Windows, Door, Roof";
     "House parts: Walls, Windows, Door, Roof, Garage, Swimming pool, Garden"].
Proof. vm_compute. discriminate. Qed.

(** ** The two variants side by side *)

(** Every label of a class stands for one part only. *)
Lemma part_of_label_label c p : part_of_label c (label c p) = Some p.
Proof. by destruct c, p. Qed.

(** The two variants' labels differ for the walls and for nothing else. *)
Lemma label_differs p :
  label Class_CheapHouseBuilder p ≠ label Class_CastleBuilder p ↔ p = Walls.
Proof. destruct p; simpl; split; intros E; try done. Qed.

(** C7.  For every recipe [S], run on a freshly reset [CheapHouseBuilder]
    and on a freshly reset [CastleBuilder], the two houses obtained have
    label sequences of the same length that name the same part at every
    position (namely the parts of [S], in order); the label texts
    themselves differ exactly at the positions of the walls. *)
Theorem variants_same_parts σ1 σ2 b1 b2 o1 o2 (S : list Part) :
  builders σ1 !! b1 = Some o1 → cls o1 = Class_CheapHouseBuilder →
  builders σ2 !! b2 = Some o2 → cls o2 = Class_CastleBuilder →
  ∃ r1 σ1' l1 r2 σ2' l2,
    (reset b1;; steps S b1;; getHouse b1) σ1 = Return (Some r1) σ1' ∧
    parts_at σ1' r1 = Some l1 ∧
    (reset b2;; steps S b2;; getHouse b2) σ2 = Return (Some r2) σ2' ∧
    parts_at σ2' r2 = Some l2 ∧
    length l1 = length l2 ∧
    map (part_of_label Class_CheapHouseBuilder) l1
    = map (part_of_label Class_CastleBuilder) l2 ∧
    map (part_of_label Class_CheapHouseBuilder) l1 = map Some S ∧
    (∀ i, l1 !! i ≠ l2 !! i ↔ S !! i = Some Walls).
Proof.
  intros E1 C1 E2 C2.
  destruct (reset_steps_getHouse σ1 b1 o1 S E1) as (r1 & σ1' & R1 & P1).
  destruct (reset_steps_getHouse σ2 b2 o2 S E2) as (r2 & σ2' & R2 & P2).
  rewrite C1 in P1. rewrite C2 in P2.
  exists r1, σ1', (map (label Class_CheapHouseBuilder) S),
         r2, σ2', (map (label Class_CastleBuilder) S).
  assert (∀ c, map (part_of_label c) (map (label c) S) = map Some S) as Hdec.
  { intros c. rewrite map_map. apply map_ext. intros p. apply part_of_label_label. }
  split; [done|]. split; [unfold parts_at; by rewrite P1|].
  split; [done|]. split; [unfold parts_at; by rewrite P2|].
  split; [by rewrite !length_map|].
  split; [by rewrite !Hdec|]. split; [apply Hdec|].
  intros i. rewrite !list_lookup_fmap.
  destruct (S !! i) as [p|]; simpl; [|by split].
  split.
  - intros Hne. f_equal. apply label_differs. intros E. apply Hne. by rewrite E.
  - intros [= ->]. by intros [=].
Qed.

Lemma variants_same_parts_witness :
  ∃ r1 σ1' l1 r2 σ2' l2,
    (reset 0;; steps [Roof; Walls; Garden] 0;; getHouse 0) two_builders_store
    = Return (Some r1) σ1' ∧
    parts_at σ1' r1 = Some l1 ∧
    (reset 1;; steps [Roof; Walls; Garden] 1;; getHouse 1) two_builders_store
    = Return (Some r2) σ2' ∧
    parts_at σ2' r2 = Some l2 ∧
    length l1 = length l2 ∧
    map (part_of_label Class_CheapHouseBuilder) l1
    = map (part_of_label Class_CastleBuilder) l2 ∧
    map (part_of_label Class_CheapHouseBuilder) l1
    = map Some [Roof; Walls; Garden] ∧
    (∀ i, l1 !! i ≠ l2 !! i ↔ [Roof; Walls; Garden] !! i = Some Walls).
Proof.
  apply (variants_same_parts two_builders_store two_builders_store 0 1
           (mkBuilder Class_CheapHouseBuilder (Some 0))
           (mkBuilder Class_CastleBuilder (Some 1))
           [Roof; Walls; Garden]);
    reflexivity.
Defined.

(** ** The constructor argument of [CastleBuilder] *)

(** C10.  [new CastleBuilder(a1)] and [new CastleBuilder(a2)] are the same
    computation whatever [a1] and [a2] are.  Constructed one after the
    other, the two builders are distinct objects in the same state (class
    [CastleBuilder], an empty house each), and any sequence of operations
    run on the one and on the other completes with the same label
    sequences handed out and the same label sequence left in the
    builder. *)
Theorem CastleBuilder_argument_ignored (a1 a2 : Value) σ (ops : list BuilderOp) :
  CastleBuilder.constructor a1 σ = CastleBuilder.constructor a2 σ ∧
  ∃ b1 b2 σ',
    (b1 ← CastleBuilder.constructor a1;
     b2 ← CastleBuilder.constructor a2;
     mret (b1, b2)) σ = Return (b1, b2) σ' ∧
    b1 ≠ b2 ∧
    cls <$> builders σ' !! b1 = Some Class_CastleBuilder ∧
    cls <$> builders σ' !! b2 = Some Class_CastleBuilder ∧
    current_parts σ' b1 = Some [] ∧
    current_parts σ' b2 = Some [] ∧
    ∃ rs1 σ1 rs2 σ2,
      run_ops ops b1 σ' = Return rs1 σ1 ∧
      run_ops ops b2 σ' = Return rs2 σ2 ∧
      map (parts_of_result σ1) rs1 = map (parts_of_result σ2) rs2 ∧
      current_parts σ1 b1 = current_parts σ2 b2.
Proof.
  split; [reflexivity|].
  set (c := Class_CastleBuilder).
  set (b1 := fresh (dom (builders σ))). set (h1 := fresh (dom (houses σ))).
  set (σa := after_construct σ c).
  set (b2 := fresh (dom (builders σa))). set (h2 := fresh (dom (houses σa))).
  set (σb := after_construct σa c).
  pose proof (after_construct_builder σ c) as Eb1. fold b1 h1 σa in Eb1.
  pose proof (after_construct_house σ c) as Eh1. fold h1 σa in Eh1.
  destruct (after_construct_old σa c b1 _ h1 _ Eb1 Eh1) as [Eb1' Eh1'].
  fold σb in Eb1', Eh1'.
  pose proof (after_construct_builder σa c) as Eb2. fold b2 h2 σb in Eb2.
  pose proof (after_construct_house σa c) as Eh2. fold h2 σb in Eh2.
  destruct (run_ops_spec ops σb b1 c h1 _ Eb1' Eh1')
    as (rs1 & σ1 & R1 & O1 & P1 & _).
  destruct (run_ops_spec ops σb b2 c h2 _ Eb2 Eh2)
    as (rs2 & σ2 & R2 & O2 & P2 & _).
  exists b1, b2, σb. split.
  { rewrite (bind_Return _ _ _ _ _ (construct_spec c a1 σ)). fold σa.
    by rewrite (bind_Return _ _ _ _ _ (construct_spec c a2 σa)). }
  split.
  { intros E. pose proof (fresh_builder_None σa) as N. fold b2 in N.
    rewrite <- E in N. by rewrite Eb1 in N. }
  split; [by rewrite Eb1'|]. split; [by rewrite Eb2|].
  split; [apply (current_parts_Some _ _ _ _ _ Eb1' Eh1')|].
  split; [apply (current_parts_Some _ _ _ _ _ Eb2 Eh2)|].
  exists rs1, σ1, rs2, σ2. split; [done|]. split; [done|].
  split; [by rewrite O1, O2|by rewrite P1, P2].
Qed.

(** ** The whole script *)

(** What [builder.ts] prints when run. *)
Example main_output :
  out_of (main empty_store)
  = ["Basic house:";
     "House parts: Walls marmol, Windows, Door, Roof" +:+ House.LF;
     "Full house:";
     "House parts: Walls marmol, Windows, Door, Roof, Garage, Swimming pool, Garden"
     +:+ House.LF;
     "Custom house:";
     "House parts: Walls marmol, Door, Roof, Windows, Swimming pool" +:+ House.LF].
Proof. vm_compute. reflexivity. Qed.

(** What the compiled script prints when run. *)
Example main_js_output :
  out_of (main_js empty_store)
  = ["Standard basic product:";
     "House parts: Walls, Windows, Door, Roof" +:+ House.LF;
     "Standard full featured product:";
     "House parts: Walls, Windows, Door, Roof, Garage, Swimming pool, Garden"
     +:+ House.LF;
     "Custom product:";
     "House parts: Walls, Door, Roof, Windows, Swimming pool" +:+ House.LF].
Proof. vm_compute. reflexivity. Qed.

(** * Further properties of the code *)

(** ** Well-formed stores are kept well-formed *)

(** [wf] spelled out with lookups. *)
Lemma wf_lookup σ :
  wf σ ↔
  (∀ b o, builders σ !! b = Some o →
          ∃ h, house o = Some h ∧ is_Some (houses σ !! h)) ∧
  (∀ b1 b2 o1 o2, builders σ !! b1 = Some o1 → builders σ !! b2 = Some o2 →
                  house o1 = house o2 → b1 = b2) ∧
  (∀ d b, directors σ !! d = Some (mkDirector (Some b)) →
          is_Some (builders σ !! b)).
Proof.
  unfold wf, map_Forall, builder_has_house, director_ok. split.
  - intros (Ha & Hb & Hc). repeat split.
    + intros b o Eb. specialize (Ha b o Eb). destruct (house o); [eauto|done].
    + intros b1 b2 o1 o2 E1 E2. by apply (Hb b1 o1 E1 b2 o2 E2).
    + intros d b Ed. apply (Hc d _ Ed).
  - intros (Ha & Hb & Hc). repeat split.
    + intros b o Eb. by destruct (Ha b o Eb) as (h & -> & ?).
    + intros b1 o1 E1 b2 o2 E2. by apply (Hb b1 b2 o1 o2).
    + intros d [[b|]] Ed; [|done]. by apply (Hc d).
Qed.

Lemma wf_empty : wf empty_store.
Proof. apply wf_lookup. repeat split; intros *; simpl; by rewrite lookup_empty. Qed.

(** A well-formed store stays well-formed when houses are added or
    overwritten and the console grows. *)
Lemma wf_same_objects σ σ' :
  wf σ → builders σ' = builders σ → directors σ' = directors σ →
  dom (houses σ) ⊆ dom (houses σ') → wf σ'.
Proof.
  rewrite !wf_lookup. intros (Ha & Hb & Hc) Eb Ed Hh. rewrite Eb, Ed.
  repeat split; [|done..].
  intros b o E. destruct (Ha b o E) as (h & Eh & Hs). exists h. split; [done|].
  apply elem_of_dom, Hh, elem_of_dom, Hs.
Qed.

Lemma wf_insert_house σ h H' :
  wf σ → is_Some (houses σ !! h) → wf (set_houses <[h := H']> σ).
Proof.
  intros W Hs. apply (wf_same_objects σ); [done..|]. simpl.
  rewrite dom_insert_L. set_solver.
Qed.

Lemma wf_set_console σ f : wf σ → wf (set_console f σ).
Proof. intros W. by apply (wf_same_objects σ). Qed.

(** Giving builder [b] (new or not) a freshly allocated empty house. *)
Lemma wf_fresh_house σ b c :
  wf σ →
  wf (mkStore (<[fresh (dom (houses σ)) := mkHouse []]> (houses σ))
              (<[b := mkBuilder c (Some (fresh (dom (houses σ))))]> (builders σ))
              (directors σ) (console σ)).
Proof.
  rewrite !wf_lookup. intros (Ha & Hb & Hc). simpl.
  set (hf := fresh (dom (houses σ))).
  assert (∀ b' o, builders σ !! b' = Some o → house o ≠ Some hf) as Hfresh.
  { intros b' o E Eh. destruct (Ha b' o E) as (h & Eh' & Hs).
    rewrite Eh in Eh'. injection Eh' as <-.
    pose proof (fresh_house_None σ) as N. fold hf in N. rewrite N in Hs.
    by destruct Hs. }
  repeat split.
  - intros b' o. rewrite lookup_insert. case_decide as Eq.
    + intros [= <-]. exists hf. split; [done|]. by rewrite lookup_insert_eq.
    + intros E. destruct (Ha b' o E) as (h & Eh & Hs). exists h. split; [done|].
      apply lookup_insert_is_Some'. by right.
  - intros b1 b2 o1 o2. rewrite !lookup_insert.
    case_decide as Eq1; case_decide as Eq2; try congruence.
    + intros [= <-] E2 Eh. simpl in Eh. by destruct (Hfresh b2 o2 E2).
    + intros E1 [= <-] Eh. simpl in Eh. by destruct (Hfresh b1 o1 E1).
    + apply Hb.
  - intros d b' Ed. apply lookup_insert_is_Some'. right. by apply (Hc d).
Qed.

Lemma wf_after_reset σ b c : wf σ → wf (after_reset σ b c).
Proof. intros W. apply (wf_fresh_house σ b c W). Qed.

Lemma after_construct_unfold σ c :
  after_construct σ c
  = mkStore (<[fresh (dom (houses σ)) := mkHouse []]> (houses σ))
            (<[fresh (dom (builders σ))
               := mkBuilder c (Some (fresh (dom (houses σ))))]> (builders σ))
            (directors σ) (console σ).
Proof.
  unfold after_construct, after_reset. apply store_eq; simpl; try done.
  by rewrite insert_insert_eq.
Qed.

Lemma wf_after_construct σ c : wf σ → wf (after_construct σ c).
Proof.
  intros W. rewrite after_construct_unfold. apply (wf_fresh_house σ _ c W).
Qed.

Lemma wf_set_director σ d v :
  wf σ → director_ok σ (mkDirector v) →
  wf (set_directors <[d := mkDirector v]> σ).
Proof.
  rewrite !wf_lookup. intros (Ha & Hb & Hc) Hv. repeat split; [done..|].
  simpl. intros d' b. rewrite lookup_insert. case_decide.
  - by intros [= ->].
  - apply Hc.
Qed.

(** In a well-formed store an allocated builder has a class, a house and
    labels. *)
Lemma wf_builder σ b :
  wf σ → is_Some (builders σ !! b) →
  ∃ c h H, builders σ !! b = Some (mkBuilder c (Some h)) ∧
           houses σ !! h = Some H.
Proof.
  rewrite wf_lookup. intros (Ha & _ & _) [[c v] Eb].
  destruct (Ha b _ Eb) as (h & Eh & [H EH]). simpl in Eh. subst v.
  by exists c, h, H.
Qed.

Lemma extends_refl σ : extends σ σ.
Proof. by repeat split. Qed.

Lemma extends_after_reset σ b c :
  is_Some (builders σ !! b) → extends σ (after_reset σ b c).
Proof.
  intros Hb. unfold extends, after_reset. simpl.
  rewrite !dom_insert_L. apply elem_of_dom in Hb. set_solver.
Qed.

Lemma extends_insert_house σ h H' : extends σ (set_houses <[h := H']> σ).
Proof. unfold extends. simpl. rewrite dom_insert_L. set_solver. Qed.

(** The first step of every recipe throws on an unbound director. *)
Lemma builder_call_unbound σ d m :
  directors σ !! d = Some (mkDirector None) →
  Director.builder_call d m σ = Throw TypeError σ.
Proof.
  intros Ed. unfold Director.builder_call.
  by rewrite (bind_Return _ _ _ _ _ (read_director_Some _ _ _ Ed)).
Qed.

(** Every operation on an allocated builder of a well-formed store
    completes, in a well-formed extension of the store. *)
Lemma run_op_wf σ b op :
  wf σ → is_Some (builders σ !! b) →
  ∃ rs σ', run_op op b σ = Return rs σ' ∧ wf σ' ∧ extends σ σ'.
Proof.
  intros W Hb. destruct (wf_builder σ b W Hb) as (c & h & H & Eb & Eh).
  destruct op as [p| |]; simpl.
  - eexists _, _. split; [|split].
    + by rewrite (bind_Return _ _ _ _ _ (step_spec _ _ _ _ _ p Eb Eh)).
    + by apply wf_insert_house.
    + apply extends_insert_house.
  - eexists _, _. split; [|split].
    + by rewrite (bind_Return _ _ _ _ _ (reset_spec _ _ _ Eb)).
    + by apply wf_after_reset.
    + by apply extends_after_reset.
  - eexists _, _. split; [|split].
    + by rewrite (bind_Return _ _ _ _ _ (getHouse_spec _ _ _ Eb)).
    + by apply wf_after_reset.
    + by apply extends_after_reset.
Qed.

(** A recipe on a director of a well-formed store either completes in a
    well-formed store with the same objects, or the director is unbound
    and the recipe throws at once. *)
Lemma recipe_wf σ d (recipe : loc → M unit) :
  recipe = Director.buildBasicHouse ∨ recipe = Director.buildFullHouse →
  wf σ → is_Some (directors σ !! d) →
  (∃ σ', recipe d σ = Return () σ' ∧ wf σ' ∧ extends σ σ') ∨
  (directors σ !! d = Some (mkDirector None) ∧ recipe d σ = Throw TypeError σ).
Proof.
  intros Hr W [[[b|]] Ed].
  - left. pose proof W as W'. apply wf_lookup in W' as (_ & _ & Hc).
    destruct (wf_builder σ b W (Hc d b Ed)) as (c & h & H & Eb & Eh).
    assert (bound d b c h σ H) as B by done.
    destruct Hr as [-> | ->]; eexists; (split; [|split]).
    + by apply (buildBasicHouse_pushed d b c h).
    + by apply wf_insert_house.
    + apply extends_insert_house.
    + by apply (buildFullHouse_pushed d b c h).
    + by apply wf_insert_house.
    + apply extends_insert_house.
  - right. split; [done|].
    pose proof (builder_call_unbound σ d produceWalls Ed) as E.
    destruct Hr as [-> | ->].
    + unfold Director.buildBasicHouse. by rewrite (bind_Throw _ _ _ _ _ E).
    + unfold Director.buildFullHouse. by rewrite (bind_Throw _ _ _ _ _ E).
Qed.

(** X1.  In a well-formed store, any statement of client code that goes
    through references to allocated objects either completes, leaving a
    well-formed store in which every earlier object is still allocated, or
    it is a recipe call on an unbound director, which throws [TypeError]
    and leaves the store as it was.  No other fault occurs. *)
Theorem client_op_safe σ (op : ClientOp) :
  wf σ → client_op_ok σ op →
  (∃ σ', run_client_op op σ = Return () σ' ∧ wf σ' ∧ extends σ σ') ∨
  (recipe_on_unbound σ op ∧ run_client_op op σ = Throw TypeError σ).
Proof.
  intros W Hok. destruct op as [c bridge| |b op|d b|d|d|d|h]; simpl in *.
  - left. eexists. split; [|split].
    + by rewrite (bind_Return _ _ _ _ _ (construct_spec c bridge σ)).
    + by apply wf_after_construct.
    + rewrite after_construct_unfold. unfold extends. simpl.
      rewrite !dom_insert_L. set_solver.
  - left. eexists. split; [|split].
    + erewrite bind_Return; reflexivity.
    + by apply wf_set_director.
    + unfold extends. simpl. rewrite dom_insert_L. set_solver.
  - left. destruct (run_op_wf σ b op W Hok) as (rs & σ' & E & W' & X).
    exists σ'. split; [|done]. by rewrite (bind_Return _ _ _ _ _ E).
  - left. destruct Hok as [[o Ed] Hb]. eexists. split; [|split].
    + unfold Director.setBuilder.
      by rewrite (bind_Return _ _ _ _ _ (read_director_Some _ _ _ Ed)).
    + by apply wf_set_director.
    + unfold extends. simpl. rewrite dom_insert_L. set_solver.
  - apply recipe_wf; auto.
  - apply recipe_wf; auto.
  - apply (recipe_wf σ d Director.buildFullHouse); auto.
  - left. destruct Hok as [H Eh]. eexists. split; [|split].
    + unfold House.listParts.
      by rewrite (bind_Return _ _ _ _ _ (read_house_Some _ _ _ Eh)).
    + by apply wf_set_console.
    + by repeat split.
Qed.

Lemma client_op_safe_witness :
  (∃ σ', run_client_op (BuilderDo 1 OpGetHouse) two_builders_store
         = Return () σ' ∧ wf σ' ∧ extends two_builders_store σ') ∨
  (recipe_on_unbound two_builders_store (BuilderDo 1 OpGetHouse) ∧
   run_client_op (BuilderDo 1 OpGetHouse) two_builders_store
   = Throw TypeError two_builders_store).
Proof.
  apply (client_op_safe two_builders_store (BuilderDo 1 OpGetHouse)).
  - apply (bool_decide_unpack _). vm_compute. exact I.
  - vm_compute. eexists. reflexivity.
Defined.

(** ** Builders do not interfere *)

(** What an operation on builder [b] leaves alone: every other builder
    with its label sequence, the directors and the console. *)
Lemma others_kept_trans (b : loc) σ1 σ2 σ3 :
  (∀ b', b' ≠ b → builders σ2 !! b' = builders σ1 !! b' ∧
                   current_parts σ2 b' = current_parts σ1 b') →
  (∀ b', b' ≠ b → builders σ3 !! b' = builders σ2 !! b' ∧
                   current_parts σ3 b' = current_parts σ2 b') →
  ∀ b', b' ≠ b → builders σ3 !! b' = builders σ1 !! b' ∧
                  current_parts σ3 b' = current_parts σ1 b'.
Proof.
  intros H12 H23 b' Hne. destruct (H12 b' Hne) as [<- <-]. by apply H23.
Qed.

(** Allocating a house for [b] changes no other builder's labels. *)
Lemma after_reset_others σ b c b' :
  wf σ → b' ≠ b →
  builders (after_reset σ b c) !! b' = builders σ !! b' ∧
  current_parts (after_reset σ b c) b' = current_parts σ b'.
Proof.
  intros W Hne.
  assert (builders (after_reset σ b c) !! b' = builders σ !! b') as Eb
    by (unfold after_reset; simpl; by rewrite lookup_insert_ne).
  split; [done|]. unfold current_parts. rewrite Eb.
  destruct (builders σ !! b') as [o|] eqn:Eo; [|done]. simpl.
  apply wf_lookup in W as (Ha & _ & _).
  destruct (Ha b' o Eo) as (h & -> & [H Eh]). simpl.
  rewrite lookup_insert_ne; [done|].
  intros E. rewrite <- E in Eh. by rewrite fresh_house_None in Eh.
Qed.

(** Pushing a label on the house of [b] changes no other builder's
    labels, since no other builder has that house. *)
Lemma push_others σ b c h H' b' :
  wf σ → builders σ !! b = Some (mkBuilder c (Some h)) → b' ≠ b →
  current_parts (set_houses <[h := H']> σ) b' = current_parts σ b'.
Proof.
  intros W Eb Hne. unfold current_parts. simpl.
  destruct (builders σ !! b') as [o|] eqn:Eo; [|done]. simpl.
  destruct (house o) as [h'|] eqn:Eh'; [|done]. simpl.
  rewrite lookup_insert_ne; [done|]. intros <-.
  apply wf_lookup in W as (_ & Hb & _).
  apply Hne. apply (Hb b' b o _ Eo Eb). by rewrite Eh'.
Qed.

Lemma run_op_others σ b op :
  wf σ → is_Some (builders σ !! b) →
  ∃ rs σ',
    run_op op b σ = Return rs σ' ∧ wf σ' ∧ is_Some (builders σ' !! b) ∧
    (∀ b', b' ≠ b → builders σ' !! b' = builders σ !! b' ∧
                     current_parts σ' b' = current_parts σ b') ∧
    directors σ' = directors σ ∧ console σ' = console σ.
Proof.
  intros W Hb. destruct (wf_builder σ b W Hb) as (c & h & H & Eb & Eh).
  destruct op as [p| |]; simpl.
  - eexists _, _. split.
    { by rewrite (bind_Return _ _ _ _ _ (step_spec _ _ _ _ _ p Eb Eh)). }
    split; [by apply wf_insert_house|]. split; [done|].
    split; [|done]. intros b' Hne. split; [done|].
    by apply (push_others σ b c).
  - eexists _, _. split.
    { by rewrite (bind_Return _ _ _ _ _ (reset_spec _ _ _ Eb)). }
    split; [by apply wf_after_reset|].
    split; [by rewrite after_reset_builder|]. split; [|done].
    intros b' Hne. by apply after_reset_others.
  - eexists _, _. split.
    { by rewrite (bind_Return _ _ _ _ _ (getHouse_spec _ _ _ Eb)). }
    split; [by apply wf_after_reset|].
    split; [by rewrite after_reset_builder|]. split; [|done].
    intros b' Hne. by apply after_reset_others.
Qed.

Lemma run_ops_others ops : ∀ σ b,
  wf σ → is_Some (builders σ !! b) →
  ∃ rs σ',
    run_ops ops b σ = Return rs σ' ∧ wf σ' ∧ is_Some (builders σ' !! b) ∧
    (∀ b', b' ≠ b → builders σ' !! b' = builders σ !! b' ∧
                     current_parts σ' b' = current_parts σ b') ∧
    directors σ' = directors σ ∧ console σ' = console σ.
Proof.
  induction ops as [|op ops IH]; intros σ b W Hb.
  - by exists [], σ.
  - destruct (run_op_others σ b op W Hb)
      as (rs1 & σ1 & E1 & W1 & Hb1 & F1 & D1 & C1).
    destruct (IH σ1 b W1 Hb1) as (rs2 & σ2 & E2 & W2 & Hb2 & F2 & D2 & C2).
    exists (rs1 ++ rs2), σ2. split.
    { simpl. rewrite (bind_Return _ _ _ _ _ E1).
      by rewrite (bind_Return _ _ _ _ _ E2). }
    split; [done|]. split; [done|].
    split; [by apply (others_kept_trans b σ σ1 σ2)|].
    split; congruence.
Qed.

(** X2.  In a well-formed store, any sequence of steps, resets and
    [getHouse] calls on one builder completes and leaves every other
    builder as it was, with the label sequence it holds; it rebinds no
    director and logs nothing. *)
Theorem builders_independent σ b b' (ops : list BuilderOp) :
  wf σ → is_Some (builders σ !! b) → b' ≠ b →
  ∃ rs σ',
    run_ops ops b σ = Return rs σ' ∧
    builders σ' !! b' = builders σ !! b' ∧
    current_parts σ' b' = current_parts σ b' ∧
    directors σ' = directors σ ∧
    console σ' = console σ.
Proof.
  intros W Hb Hne.
  destruct (run_ops_others ops σ b W Hb) as (rs & σ' & E & _ & _ & F & D & C).
  exists rs, σ'. destruct (F b' Hne). by repeat split.
Qed.

Lemma builders_independent_witness :
  ∃ rs σ',
    run_ops [OpStep Roof; OpGetHouse; OpStep Door; OpReset] 1 two_builders_store
    = Return rs σ' ∧
    builders σ' !! 0 = builders two_builders_store !! 0 ∧
    current_parts σ' 0 = current_parts two_builders_store 0 ∧
    directors σ' = directors two_builders_store ∧
    console σ' = console two_builders_store.
Proof.
  apply (builders_independent two_builders_store 1 0
           [OpStep Roof; OpGetHouse; OpStep Door; OpReset]).
  - apply (bool_decide_unpack _). vm_compute. exact I.
  - vm_compute. eexists. reflexivity.
  - vm_compute. discriminate.
Defined.

(** ** The houses handed out *)

Lemma after_reset_None σ b c h' :
  houses (after_reset σ b c) !! h' = None → houses σ !! h' = None.
Proof. unfold after_reset. simpl. intros E. by apply lookup_insert_None in E as [? _]. Qed.

Lemma run_ops_results ops : ∀ σ b c h H,
  builders σ !! b = Some (mkBuilder c (Some h)) →
  houses σ !! h = Some H →
  ∃ rs σ',
    run_ops ops b σ = Return rs σ' ∧
    NoDup rs ∧
    Forall (fun r => ∃ h', r = Some h' ∧ (h' = h ∨ houses σ !! h' = None)) rs.
Proof.
  induction ops as [|op ops IH]; intros σ b c h H Eb Eh.
  - exists [], σ. split; [done|]. split; constructor.
  - destruct op as [p| |]; simpl.
    + set (σ1 := set_houses <[h := mkHouse (parts H ++ [label c p])]> σ).
      destruct (IH σ1 b c h _ Eb (lookup_insert_eq _ _ _))
        as (rs & σ' & E & ND & F).
      exists rs, σ'. split.
      { erewrite bind_Return;
          [|erewrite bind_Return; [|by apply (step_spec _ _ c h H)]; reflexivity].
        erewrite bind_Return; [|exact E]. reflexivity. }
      split; [done|]. eapply Forall_impl; [exact F|].
      intros r (h' & -> & Hh'). exists h'. split; [done|].
      destruct Hh' as [->|N]; [by left|].
      right. simpl in N. by apply lookup_insert_None in N as [? _].
    + destruct (IH (after_reset σ b c) b c _ _ (after_reset_builder σ b c)
                  (after_reset_fresh σ b c)) as (rs & σ' & E & ND & F).
      exists rs, σ'. split.
      { erewrite bind_Return;
          [|erewrite bind_Return; [|by apply (reset_spec _ _ _ Eb)]; reflexivity].
        erewrite bind_Return; [|exact E]. reflexivity. }
      split; [done|]. eapply Forall_impl; [exact F|].
      intros r (h' & -> & Hh'). exists h'. split; [done|]. right.
      destruct Hh' as [->|N];
        [apply fresh_house_None|by apply (after_reset_None σ b c)].
    + destruct (IH (after_reset σ b c) b c _ _ (after_reset_builder σ b c)
                  (after_reset_fresh σ b c)) as (rs & σ' & E & ND & F).
      exists (Some h :: rs), σ'. split.
      { erewrite bind_Return;
          [|erewrite bind_Return; [|by apply (getHouse_spec _ _ _ Eb)]; reflexivity].
        erewrite bind_Return; [|exact E]. reflexivity. }
      split.
      * constructor; [|done]. intros Hin.
        rewrite Forall_forall in F. destruct (F _ Hin) as (h' & [= <-] & [E'|N]).
        -- rewrite E' in Eh. by rewrite fresh_house_None in Eh.
        -- by rewrite (after_reset_old σ b c _ _ Eh) in N.
      * constructor; [exists h; split; [done|by left]|].
        eapply Forall_impl; [exact F|].
        intros r (h' & -> & Hh'). exists h'. split; [done|]. right.
        destruct Hh' as [->|N];
          [apply fresh_house_None|by apply (after_reset_None σ b c)].
Qed.

(** X3.  Over any sequence of operations on a builder, the houses that
    [getHouse] hands out are pairwise distinct objects, and each is either
    the house the builder held at the start or one allocated since: a
    house is never handed out twice, and never a house that belonged to
    anything else. *)
Theorem getHouse_results_distinct σ b c h H (ops : list BuilderOp) :
  builders σ !! b = Some (mkBuilder c (Some h)) →
  houses σ !! h = Some H →
  ∃ rs σ',
    run_ops ops b σ = Return rs σ' ∧
    NoDup rs ∧
    Forall (fun r => ∃ h', r = Some h' ∧ (h' = h ∨ houses σ !! h' = None)) rs.
Proof. apply run_ops_results. Qed.

Lemma getHouse_results_distinct_witness :
  ∃ rs σ',
    run_ops [OpGetHouse; OpStep Roof; OpGetHouse; OpReset; OpGetHouse] 0
      (one_builder_store Class_CastleBuilder ["Door"]) = Return rs σ' ∧
    NoDup rs ∧
    Forall (fun r => ∃ h', r = Some h' ∧
              (h' = 0 ∨ houses (one_builder_store Class_CastleBuilder ["Door"])
                          !! h' = None)) rs.
Proof.
  apply (getHouse_results_distinct
           (one_builder_store Class_CastleBuilder ["Door"])
           0 Class_CastleBuilder 0 (mkHouse ["Door"])
           [OpGetHouse; OpStep Roof; OpGetHouse; OpReset; OpGetHouse]);
    reflexivity.
Defined.

(** ** The builder as a value *)

(** X4.  A builder in the store behaves like a builder that is just a
    label sequence: any sequence of operations completes, the houses
    handed out hold, in order, the sequences the pure builder hands out,
    and the builder is left holding the pure builder's final sequence. *)
Theorem builder_refines_pure σ b c h H (ops : list BuilderOp) :
  builders σ !! b = Some (mkBuilder c (Some h)) →
  houses σ !! h = Some H →
  ∃ rs σ',
    run_ops ops b σ = Return rs σ' ∧
    map (parts_of_result σ') rs = map Some (pure_ops c ops (parts H)).1 ∧
    current_parts σ' b = Some (pure_ops c ops (parts H)).2.
Proof.
  intros Eb Eh.
  destruct (run_ops_spec ops σ b c h H Eb Eh) as (rs & σ' & E & O & P & _).
  by exists rs, σ'.
Qed.

Lemma builder_refines_pure_witness :
  ∃ rs σ',
    run_ops [OpStep Walls; OpGetHouse; OpStep Roof; OpReset; OpStep Door] 0
      (one_builder_store Class_CastleBuilder ["Garden"]) = Return rs σ' ∧
    map (parts_of_result σ') rs
    = map Some (pure_ops Class_CastleBuilder
                  [OpStep Walls; OpGetHouse; OpStep Roof; OpReset; OpStep Door]
                  ["Garden"]).1 ∧
    current_parts σ' 0
    = Some (pure_ops Class_CastleBuilder
              [OpStep Walls; OpGetHouse; OpStep Roof; OpReset; OpStep Door]
              ["Garden"]).2.
Proof.
  apply (builder_refines_pure
           (one_builder_store Class_CastleBuilder ["Garden"])
           0 Class_CastleBuilder 0 (mkHouse ["Garden"])
           [OpStep Walls; OpGetHouse; OpStep Roof; OpReset; OpStep Door]);
    reflexivity.
Defined.

(** The pure builder over a run of steps, and over two runs in a row. *)
Lemma pure_ops_steps c (S : list Part) : ∀ cur,
  pure_ops c (map OpStep S) cur = ([], cur ++ map (label c) S).
Proof.
  induction S as [|p S IH]; intros cur; simpl.
  - by rewrite app_nil_r.
  - rewrite IH. simpl. by rewrite <- app_assoc.
Qed.

Lemma pure_ops_app c ops1 : ∀ ops2 cur,
  pure_ops c (ops1 ++ ops2) cur
  = let '(out1, cur1) := pure_ops c ops1 cur in
    let '(out2, cur2) := pure_ops c ops2 cur1 in
    (out1 ++ out2, cur2).
Proof.
  induction ops1 as [|op ops1 IH]; intros ops2 cur; simpl.
  - by destruct (pure_ops c ops2 cur).
  - destruct (pure_op c op cur) as [o1 c1]. rewrite IH.
    destruct (pure_ops c ops1 c1) as [o2 c2].
    destruct (pure_ops c ops2 c2) as [o3 c3]. by rewrite app_assoc.
Qed.

(** X5.  [reset] discards the labels collected so far: after steps [S], a
    [reset], steps [S'] and [getHouse], the house handed out holds the
    labels of [S'] only, whatever the builder held before. *)
Theorem reset_discards_progress σ b c h H (S S' : list Part) :
  builders σ !! b = Some (mkBuilder c (Some h)) →
  houses σ !! h = Some H →
  ∃ r σ',
    run_ops (map OpStep S ++ [OpReset] ++ map OpStep S' ++ [OpGetHouse]) b σ
    = Return [Some r] σ' ∧
    parts_at σ' r = Some (map (label c) S') ∧
    current_parts σ' b = Some [].
Proof.
  intros Eb Eh.
  destruct (run_ops_spec
              (map OpStep S ++ [OpReset] ++ map OpStep S' ++ [OpGetHouse])
              σ b c h H Eb Eh) as (rs & σ' & E & O & P & _).
  rewrite pure_ops_app, pure_ops_steps in O, P. simpl in O, P.
  rewrite pure_ops_app, pure_ops_steps in O, P. simpl in O, P.
  destruct rs as [|[r|] [|]]; simplify_eq/=.
  exists r, σ'. by rewrite E.
Qed.

Lemma reset_discards_progress_witness :
  ∃ r σ',
    run_ops (map OpStep [Walls; Door] ++ [OpReset]
             ++ map OpStep [Roof] ++ [OpGetHouse]) 0
      (one_builder_store Class_CheapHouseBuilder ["Garden"])
    = Return [Some r] σ' ∧
    parts_at σ' r = Some (map (label Class_CheapHouseBuilder) [Roof]) ∧
    current_parts σ' 0 = Some [].
Proof.
  apply (reset_discards_progress
           (one_builder_store Class_CheapHouseBuilder ["Garden"])
           0 Class_CheapHouseBuilder 0 (mkHouse ["Garden"]) [Walls; Door] [Roof]);
    reflexivity.
Defined.

(** ** The listing can be read back *)

Lemma string_app_assoc (s1 s2 s3 : string) :
  (s1 +:+ s2) +:+ s3 = s1 +:+ (s2 +:+ s3).
Proof.
  induction s1 as [|a s1 IH]; [done|].
  change (String a ((s1 +:+ s2) +:+ s3) = String a (s1 +:+ (s2 +:+ s3))).
  by f_equal.
Qed.

Lemma string_app_cancel_l (s x y : string) : s +:+ x = s +:+ y → x = y.
Proof.
  induction s as [|a s IH]; [done|]. intros E.
  change (String a (s +:+ x) = String a (s +:+ y)) in E.
  injection E as E. by apply IH.
Qed.

(** [join] followed by a terminator, one element at a time. *)
Lemma join_cons_app sep a l t :
  House.join sep (a :: l) +:+ t
  = a +:+ match l with
          | [] => t
          | _ :: _ => sep +:+ (House.join sep l +:+ t)
          end.
Proof. destruct l; [done|]. simpl House.join. by rewrite !string_app_assoc. Qed.

(** Within one class no label is the beginning of another, so a label can
    be split off the front of a text in one way only. *)
Lemma label_prefix_free c p q x y :
  label c p +:+ x = label c q +:+ y → p = q ∧ x = y.
Proof.
  intros E. destruct (decide (p = q)) as [->|Hne].
  - split; [done|]. by apply string_app_cancel_l in E.
  - exfalso. destruct c, p, q; try done;
      cbv [label String.append] in E; by simplify_eq.
Qed.

(** No label starts with a line feed or a comma. *)
Lemma label_not_LF c p x : House.LF ≠ label c p +:+ x.
Proof.
  intros E. destruct c, p;
    cbv [label String.append House.LF Ascii.ascii_of_nat Ascii.ascii_of_pos] in E;
    by simplify_eq.
Qed.

Lemma join_labels_inj c (S1 : list Part) : ∀ S2,
  House.join ", " (map (label c) S1) +:+ House.LF
  = House.join ", " (map (label c) S2) +:+ House.LF →
  S1 = S2.
Proof.
  assert (∀ x, House.LF ≠ ", " +:+ x) as Hcomma.
  { intros x E. vm_compute in E. by simplify_eq. }
  induction S1 as [|p S1 IH]; intros [|q S2] E; [done|..].
  - simpl map in E. rewrite join_cons_app in E. by destruct (label_not_LF _ _ _ E).
  - simpl map in E. rewrite join_cons_app in E.
    symmetry in E. by destruct (label_not_LF _ _ _ E).
  - simpl map in E. rewrite !join_cons_app in E.
    apply label_prefix_free in E as [-> E]. f_equal.
    destruct S1 as [|p' S1], S2 as [|q' S2]; simpl map in E; [done|..].
    + by destruct (Hcomma _ E).
    + symmetry in E. by destruct (Hcomma _ E).
    + apply IH. simpl map. by apply string_app_cancel_l in E.
Qed.

(** X6.  The line [listParts] logs determines the sequence of parts: two
    houses built by one class from different step sequences are never
    listed alike. *)
Theorem listing_determines_parts c (S1 S2 : list Part) :
  House.listParts_text (map (label c) S1)
  = House.listParts_text (map (label c) S2) →
  S1 = S2.
Proof.
  unfold House.listParts_text. intros E. apply (join_labels_inj c).
  by apply string_app_cancel_l in E.
Qed.

Lemma listing_determines_parts_witness :
  [Roof; Walls; Roof] = [Roof; Walls; Roof].
Proof.
  apply (listing_determines_parts Class_CastleBuilder
           [Roof; Walls; Roof] [Roof; Walls; Roof]).
  reflexivity.
Defined.

(** ** What the recipes leave alone *)

Lemma pushed_only_house c h S H σ :
  houses σ !! h = Some H → only_house_changed h σ (pushed c h S H σ).
Proof.
  intros Eh. unfold only_house_changed, pushed. simpl.
  repeat split; try done.
  - by apply dom_insert_lookup_L.
  - intros h0 Hne. by rewrite lookup_insert_ne.
Qed.

(** X7.  A recipe run on a bound director writes to one object only, the
    current house of the bound builder: it allocates nothing, changes no
    builder (the builder keeps its house: a recipe never resets), rebinds
    no director and logs nothing. *)
Theorem recipes_touch_one_house σ d b c h H :
  directors σ !! d = Some (mkDirector (Some b)) →
  builders σ !! b = Some (mkBuilder c (Some h)) →
  houses σ !! h = Some H →
  ∃ σ1 σ2,
    Director.buildBasicHouse d σ = Return () σ1 ∧
    only_house_changed h σ σ1 ∧
    Director.buildFullHouse d σ = Return () σ2 ∧
    only_house_changed h σ σ2.
Proof.
  intros Ed Eb Eh. assert (bound d b c h σ H) as B by done.
  exists (pushed c h basic_recipe H σ), (pushed c h full_recipe H σ).
  split; [by apply (buildBasicHouse_pushed d b)|].
  split; [by apply pushed_only_house|].
  split; [by apply (buildFullHouse_pushed d b)|by apply pushed_only_house].
Qed.

Lemma recipes_touch_one_house_witness :
  ∃ σ1 σ2,
    Director.buildBasicHouse 0 two_builders_store = Return () σ1 ∧
    only_house_changed 0 two_builders_store σ1 ∧
    Director.buildFullHouse 0 two_builders_store = Return () σ2 ∧
    only_house_changed 0 two_builders_store σ2.
Proof.
  apply (recipes_touch_one_house two_builders_store 0 0
           Class_CheapHouseBuilder 0 (mkHouse ["Walls"]));
    reflexivity.
Defined.

(** X8.  The full recipe is the basic recipe followed by the steps
    garage, swimming pool, garden called on the builder directly: both
    end in the same store. *)
Theorem full_is_basic_then_extras σ d b c h H :
  directors σ !! d = Some (mkDirector (Some b)) →
  builders σ !! b = Some (mkBuilder c (Some h)) →
  houses σ !! h = Some H →
  (Director.buildBasicHouse d;; steps [Garage; SwimmingPool; Garden] b) σ
  = Director.buildFullHouse d σ.
Proof.
  intros Ed Eb Eh. assert (bound d b c h σ H) as B by done.
  rewrite (bind_Return _ _ _ _ _ (buildBasicHouse_pushed d b c h _ _ B)).
  rewrite (steps_pushed d b c h _ _ _ (bound_pushed d b c h _ _ basic_recipe B)).
  rewrite (buildFullHouse_pushed d b c h _ _ B). by rewrite pushed_pushed.
Qed.

Lemma full_is_basic_then_extras_witness :
  (Director.buildBasicHouse 0;; steps [Garage; SwimmingPool; Garden] 0)
    two_builders_store
  = Director.buildFullHouse 0 two_builders_store.
Proof.
  apply (full_is_basic_then_extras two_builders_store 0 0
           Class_CheapHouseBuilder 0 (mkHouse ["Walls"]));
    reflexivity.
Defined.

(** X9.  [setBuilder] works on an unbound director as on a bound one, and
    the recipes then act on the new builder only: after
    [setBuilder(b')] and a recipe, [b'] holds the recipe's labels after the
    ones it had, and every other builder, the one bound before among
    them, holds what it held. *)
Theorem rebound_director_uses_new_builder σ d b b' c' h' H' :
  wf σ →
  is_Some (directors σ !! d) →
  builders σ !! b' = Some (mkBuilder c' (Some h')) →
  houses σ !! h' = Some H' →
  b ≠ b' →
  ∃ σ',
    (Director.setBuilder d b';; Director.buildBasicHouse d) σ = Return () σ' ∧
    current_parts σ' b' = Some (parts H' ++ map (label c') basic_recipe) ∧
    current_parts σ' b = current_parts σ b.
Proof.
  intros W [o Ed] Eb Eh Hne.
  set (σ1 := set_directors <[d := mkDirector (Some b')]> σ).
  assert (bound d b' c' h' σ1 H') as B.
  { split; [simpl; by rewrite lookup_insert_eq|done]. }
  exists (pushed c' h' basic_recipe H' σ1). split; [|split].
  - erewrite bind_Return.
    + by apply (buildBasicHouse_pushed d b' c' h').
    + unfold Director.setBuilder.
      by rewrite (bind_Return _ _ _ _ _ (read_director_Some _ _ _ Ed)).
  - by apply (current_parts_pushed d b').
  - by apply (push_others σ b' c').
Qed.

Lemma rebound_director_uses_new_builder_witness :
  ∃ σ',
    (Director.setBuilder 0 1;; Director.buildBasicHouse 0) two_builders_store
    = Return () σ' ∧
    current_parts σ' 1
    = Some (parts (mkHouse []) ++ map (label Class_CastleBuilder) basic_recipe) ∧
    current_parts σ' 0 = current_parts two_builders_store 0.
Proof.
  apply (rebound_director_uses_new_builder two_builders_store 0 0 1
           Class_CastleBuilder 1 (mkHouse [])).
  - apply (bool_decide_unpack _). vm_compute. exact I.
  - vm_compute. eexists. reflexivity.
  - reflexivity.
  - reflexivity.
  - vm_compute. discriminate.
Defined.

(** ** The client code, from any store *)

Lemma bound_set_console d b c h σ H f :
  bound d b c h σ H → bound d b c h (set_console f σ) H.
Proof. by intros (? & ? & ?). Qed.

(** A step called on the builder directly, then the rest. *)
Lemma direct_step_then d b c h σ H p (k : M unit) :
  bound d b c h σ H →
  (house_parts_push b (label c p);; k) σ = k (pushed c h [p] H σ).
Proof.
  intros (_ & Eb & Eh).
  by rewrite (bind_Return _ _ _ _ _ (house_parts_push_spec _ _ _ _ _ _ Eb Eh)).
Qed.

(** The custom house of [clientCode]: five steps called directly. *)
Lemma custom_house_then d b c h σ H (k : M unit) :
  bound d b c h σ H →
  (house_parts_push b (label c Walls);;
   house_parts_push b (label c Door);;
   house_parts_push b (label c Roof);;
   house_parts_push b (label c Windows);;
   house_parts_push b (label c SwimmingPool);;
   k) σ
  = k (pushed c h [Walls; Door; Roof; Windows; SwimmingPool] H σ).
Proof.
  intros B. rewrite (direct_step_then _ _ _ _ _ _ Walls _ B).
  pose proof (bound_pushed d b c h _ _ [Walls] B) as B1.
  rewrite (direct_step_then _ _ _ _ _ _ Door _ B1), pushed_pushed.
  pose proof (bound_pushed d b c h _ _ [Walls; Door] B) as B2.
  rewrite (direct_step_then _ _ _ _ _ _ Roof _ B2), pushed_pushed.
  pose proof (bound_pushed d b c h _ _ [Walls; Door; Roof] B) as B3.
  rewrite (direct_step_then _ _ _ _ _ _ Windows _ B3), pushed_pushed.
  pose proof (bound_pushed d b c h _ _ [Walls; Door; Roof; Windows] B) as B4.
  by rewrite (direct_step_then _ _ _ _ _ _ SwimmingPool _ B4), pushed_pushed.
Qed.

(** Constructing a builder and binding it to [d] starts the client
    code's stages. *)
Lemma client_inv_start σ d c :
  is_Some (directors σ !! d) →
  client_inv σ d (fresh (dom (builders σ))) c []
    (set_directors <[d := mkDirector (Some (fresh (dom (builders σ))))]>
       (after_construct σ c)).
Proof.
  intros _. rewrite after_construct_unfold. unfold client_inv. simpl.
  split; [|split; [|split; [|split]]].
  - exists (fresh (dom (houses σ))). split; [|apply fresh_house_None].
    unfold bound. simpl. by rewrite !lookup_insert_eq.
  - apply fresh_builder_None.
  - split; simpl.
    + intros h H Eh. rewrite lookup_insert_ne; [done|].
      intros E. rewrite <- E in Eh. by rewrite fresh_house_None in Eh.
    + intros b o Eb. rewrite lookup_insert_ne; [done|].
      intros E. rewrite <- E in Eb. by rewrite fresh_builder_None in Eb.
  - intros d' Hne. by rewrite lookup_insert_ne.
  - by rewrite app_nil_r.
Qed.

(** One stage of the client code: a heading, some steps [S] through the
    director or directly, then [getHouse().listParts()]. *)
Lemma client_phase σ0 d b c out σ heading (body : M unit → M unit) S :
  client_inv σ0 d b c out σ →
  (∀ (k : M unit) σ1 h H,
     bound d b c h σ1 H → body k σ1 = k (pushed c h S H σ1)) →
  ∃ σ',
    client_inv σ0 d b c
      (out ++ [heading; House.listParts_text (map (label c) S)]) σ' ∧
    (∀ k : M unit,
       (console_log heading;;
        body (getHouse_listParts (getHouse_of c) b;; k)) σ = k σ') ∧
    (console_log heading;;
     body (getHouse_listParts (getHouse_of c) b)) σ = Return () σ'.
Proof.
  intros ((h & B & Nh) & Nb & (Uh & Ub) & Ud & Ec) Hbody.
  set (σa := set_console (fun out => out ++ [heading]) σ).
  pose proof (bound_set_console _ _ _ _ _ _ (fun out => out ++ [heading]) B) as Ba.
  fold σa in Ba.
  set (σb := pushed c h S (mkHouse []) σa).
  pose proof (bound_pushed d b c h _ _ S Ba) as Bb. fold σb in Bb. simpl in Bb.
  destruct (getHouse_listParts_spec _ _ _ _ _ _ Bb) as [Eg Bg].
  set (σ' := after_listParts σb b c (mkHouse (map (label c) S))) in *.
  exists σ'. split; [|split].
  - unfold client_inv. split; [|split; [|split; [|split]]].
    + exists (fresh (dom (houses σb))). split; [done|].
      destruct (houses σ0 !! fresh (dom (houses σb))) as [X|] eqn:E0; [|done].
      exfalso. apply Uh in E0.
      assert (is_Some (houses σb !! fresh (dom (houses σb)))) as [Y EY].
      { simpl. apply lookup_insert_is_Some'. right. by eexists. }
      by rewrite fresh_house_None in EY.
    + done.
    + split.
      * intros h0 H0 E0. apply (after_reset_old σb b c). simpl.
        rewrite lookup_insert_ne; [by apply Uh|].
        intros <-. by rewrite Nh in E0.
      * intros b0 o E0. simpl. rewrite lookup_insert_ne; [by apply Ub|].
        intros <-. by rewrite Nb in E0.
    + intros d' Hne. simpl. by apply Ud.
    + simpl. rewrite Ec. by rewrite <- !app_assoc.
  - intros k. erewrite bind_Return; [|reflexivity]. fold σa.
    rewrite (Hbody _ _ _ _ Ba). fold σb.
    by rewrite (bind_Return _ _ _ _ _ Eg).
  - erewrite bind_Return; [|reflexivity]. fold σa.
    rewrite (Hbody _ _ _ _ Ba). fold σb. exact Eg.
Qed.

Lemma setBuilder_spec σ d o b :
  directors σ !! d = Some o →
  Director.setBuilder d b σ
  = Return () (set_directors <[d := mkDirector (Some b)]> σ).
Proof.
  intros Ed. unfold Director.setBuilder.
  by rewrite (bind_Return _ _ _ _ _ (read_director_Some _ _ _ Ed)).
Qed.

(** X10.  [clientCode] of [builder.ts], called on any director, bound or
    not, in any store: it completes; it logs, after what was logged
    before, the three headings each followed by the listing of a castle;
    it leaves the director bound to the builder it constructed, which
    holds an empty house; and every house, builder and other director that
    existed before is as it was. *)
Theorem clientCode_spec σ d :
  is_Some (directors σ !! d) →
  ∃ σ',
    clientCode d σ = Return () σ' ∧
    console σ'
    = console σ
      ++ ["Basic house:";
          "House parts: Walls marmol, Windows, Door, Roof" +:+ House.LF;
          "Full house:";
          "House parts: Walls marmol, Windows, Door, Roof, Garage, Swimming pool, Garden"
          +:+ House.LF;
          "Custom house:";
          "House parts: Walls marmol, Door, Roof, Windows, Swimming pool"
          +:+ House.LF] ∧
    builders σ !! fresh (dom (builders σ)) = None ∧
    directors σ' !! d = Some (mkDirector (Some (fresh (dom (builders σ))))) ∧
    current_parts σ' (fresh (dom (builders σ))) = Some [] ∧
    untouched σ σ' ∧
    (∀ d', d' ≠ d → directors σ' !! d' = directors σ !! d').
Proof.
  intros Hd. pose proof Hd as [o Ed]. set (c := Class_CastleBuilder).
  set (b := fresh (dom (builders σ))).
  pose proof (client_inv_start σ d c Hd) as I0. fold b in I0.
  destruct (client_phase _ _ _ _ _ _ "Basic house:"
              (fun k => Director.buildBasicHouse d;; k) basic_recipe I0)
    as (σ1 & I1 & P1 & _).
  { intros k σ1 h H B.
    by rewrite (bind_Return _ _ _ _ _ (buildBasicHouse_pushed d b c h _ _ B)). }
  destruct (client_phase _ _ _ _ _ _ "Full house:"
              (fun k => Director.buildFullHouse d;; k) full_recipe I1)
    as (σ2 & I2 & P2 & _).
  { intros k σ' h H B.
    by rewrite (bind_Return _ _ _ _ _ (buildFullHouse_pushed d b c h _ _ B)). }
  destruct (client_phase _ _ _ _ _ _ "Custom house:"
              (fun k => CastleBuilder.produceWalls b;;
                        CastleBuilder.produceDoor b;;
                        CastleBuilder.produceRoof b;;
                        CastleBuilder.produceWindows b;;
                        CastleBuilder.produceSwimmingPool b;; k)
              [Walls; Door; Roof; Windows; SwimmingPool] I2)
    as (σ3 & I3 & _ & P3).
  { intros k σ' h H B. by apply (custom_house_then d b c h). }
  exists σ3.
  destruct I3 as ((h3 & (Ed3 & Eb3 & Eh3) & _) & Nb & U & Ud & Ec).
  split; [|split; [|split; [|split; [|split; [|split]]]]]; try done.
  - unfold clientCode.
    rewrite (bind_Return _ _ _ _ _ (construct_spec c (VNumber 4) σ)). fold b.
    erewrite bind_Return; [|by apply (setBuilder_spec _ _ o)].
    etrans; [apply (P1 _)|]. etrans; [apply (P2 _)|]. exact P3.
  - by apply (current_parts_Some _ _ c h3 (mkHouse [])).
Qed.

Lemma clientCode_spec_witness :
  ∃ σ',
    clientCode 0 two_builders_store = Return () σ' ∧
    console σ'
    = console two_builders_store
      ++ ["Basic house:";
          "House parts: Walls marmol, Windows, Door, Roof" +:+ House.LF;
          "Full house:";
          "House parts: Walls marmol, Windows, Door, Roof, Garage, Swimming pool, Garden"
          +:+ House.LF;
          "Custom house:";
          "House parts: Walls marmol, Door, Roof, Windows, Swimming pool"
          +:+ House.LF] ∧
    builders two_builders_store !! fresh (dom (builders two_builders_store))
    = None ∧
    directors σ' !! 0
    = Some (mkDirector (Some (fresh (dom (builders two_builders_store))))) ∧
    current_parts σ' (fresh (dom (builders two_builders_store))) = Some [] ∧
    untouched two_builders_store σ' ∧
    (∀ d', d' ≠ 0 → directors σ' !! d' = directors two_builders_store !! d').
Proof.
  apply (clientCode_spec two_builders_store 0).
  vm_compute. eexists. reflexivity.
Defined.

(** X11.  [clientCode] of the compiled script, called on any director in
    any store: it completes; it logs the three headings each followed by
    the listing of a standard house; it leaves the director bound to the
    [ConcreteBuilder1] it constructed, which holds an empty house; and
    every house, builder and other director that existed before is as it
    was. *)
Theorem clientCode_js_spec σ d :
  is_Some (directors σ !! d) →
  ∃ σ',
    clientCode_js d σ = Return () σ' ∧
    console σ'
    = console σ
      ++ ["Standard basic product:";
          "House parts: Walls, Windows, Door, Roof" +:+ House.LF;
          "Standard full featured product:";
          "House parts: Walls, Windows, Door, Roof, Garage, Swimming pool, Garden"
          +:+ House.LF;
          "Custom product:";
          "House parts: Walls, Door, Roof, Windows, Swimming pool"
          +:+ House.LF] ∧
    builders σ !! fresh (dom (builders σ)) = None ∧
    directors σ' !! d = Some (mkDirector (Some (fresh (dom (builders σ))))) ∧
    current_parts σ' (fresh (dom (builders σ))) = Some [] ∧
    untouched σ σ' ∧
    (∀ d', d' ≠ d → directors σ' !! d' = directors σ !! d').
Proof.
  intros Hd. pose proof Hd as [o Ed]. set (c := Class_ConcreteBuilder1).
  set (b := fresh (dom (builders σ))).
  pose proof (client_inv_start σ d c Hd) as I0. fold b in I0.
  destruct (client_phase _ _ _ _ _ _ "Standard basic product:"
              (fun k => Director.buildBasicHouse d;; k) basic_recipe I0)
    as (σ1 & I1 & P1 & _).
  { intros k σ1 h H B.
    by rewrite (bind_Return _ _ _ _ _ (buildBasicHouse_pushed d b c h _ _ B)). }
  destruct (client_phase _ _ _ _ _ _ "Standard full featured product:"
              (fun k => Director.buildLuxuryHouse d;; k) full_recipe I1)
    as (σ2 & I2 & P2 & _).
  { intros k σ' h H B.
    by rewrite (bind_Return _ _ _ _ _ (buildFullHouse_pushed d b c h _ _ B)). }
  destruct (client_phase _ _ _ _ _ _ "Custom product:"
              (fun k => ConcreteBuilder1.produceWalls b;;
                        ConcreteBuilder1.produceDoor b;;
                        ConcreteBuilder1.produceRoof b;;
                        ConcreteBuilder1.produceWindows b;;
                        ConcreteBuilder1.produceSwimmingPool b;; k)
              [Walls; Door; Roof; Windows; SwimmingPool] I2)
    as (σ3 & I3 & _ & P3).
  { intros k σ' h H B. by apply (custom_house_then d b c h). }
  exists σ3.
  destruct I3 as ((h3 & (Ed3 & Eb3 & Eh3) & _) & Nb & U & Ud & Ec).
  split; [|split; [|split; [|split; [|split; [|split]]]]]; try done.
  - unfold clientCode_js.
    rewrite (bind_Return _ _ _ _ _ (construct_spec c VUndefined σ)). fold b.
    erewrite bind_Return; [|by apply (setBuilder_spec _ _ o)].
    etrans; [apply (P1 _)|]. etrans; [apply (P2 _)|]. exact P3.
  - by apply (current_parts_Some _ _ c h3 (mkHouse [])).
Qed.

Lemma clientCode_js_spec_witness :
  ∃ σ',
    clientCode_js 0 unbound_store = Return () σ' ∧
    console σ'
    = console unbound_store
      ++ ["Standard basic product:";
          "House parts: Walls, Windows, Door, Roof" +:+ House.LF;
          "Standard full featured product:";
          "House parts: Walls, Windows, Door, Roof, Garage, Swimming pool, Garden"
          +:+ House.LF;
          "Custom product:";
          "House parts: Walls, Door, Roof, Windows, Swimming pool"
          +:+ House.LF] ∧
    builders unbound_store !! fresh (dom (builders unbound_store)) = None ∧
    directors σ' !! 0
    = Some (mkDirector (Some (fresh (dom (builders unbound_store))))) ∧
    current_parts σ' (fresh (dom (builders unbound_store))) = Some [] ∧
    untouched unbound_store σ' ∧
    (∀ d', d' ≠ 0 → directors σ' !! d' = directors unbound_store !! d').
Proof.
  apply (clientCode_js_spec unbound_store 0).
  vm_compute. eexists. reflexivity.
Defined.

(** ** Edge cases of the builders *)

(** X12.  A house can be listed before any step has run: for a builder of
    any class, just constructed in any store, [getHouse().listParts()]
    completes and logs ["House parts: "] and a line feed, the join of no
    labels being the empty text. *)
Theorem empty_house_listing c bridge σ :
  ∃ σ',
    (b ← construct c bridge; getHouse_listParts (getHouse_of c) b) σ
    = Return () σ' ∧
    console σ' = console σ ++ ["House parts: " +:+ House.LF].
Proof.
  set (b := fresh (dom (builders σ))). set (σ1 := after_construct σ c).
  pose proof (after_construct_builder σ c) as Eb. fold b σ1 in Eb.
  pose proof (after_construct_house σ c) as Eh. fold σ1 in Eh.
  pose proof (after_reset_old σ1 b c _ _ Eh) as Eh'.
  eexists. split.
  - rewrite (bind_Return _ _ _ _ _ (construct_spec c bridge σ)). fold b σ1.
    unfold getHouse_listParts.
    rewrite (bind_Return _ _ _ _ _ (getHouse_of_spec _ _ _ c Eb)). simpl.
    rewrite bind_ret. unfold House.listParts.
    by rewrite (bind_Return _ _ _ _ _ (read_house_Some _ _ _ Eh')).
  - done.
Qed.

(** X13.  Steps only ever append: from any state of a builder, a sequence
    of steps [S] completes and leaves in the builder's house the labels it
    held followed by the labels of [S]; nothing else in the store
    changes. *)
Theorem steps_append_only σ b c h H (S : list Part) :
  builders σ !! b = Some (mkBuilder c (Some h)) →
  houses σ !! h = Some H →
  ∃ σ',
    steps S b σ = Return () σ' ∧
    current_parts σ' b = Some (parts H ++ map (label c) S) ∧
    only_house_changed h σ σ'.
Proof.
  intros Eb Eh. exists (pushed c h S H σ).
  split; [by apply steps_spec|]. split; [|by apply pushed_only_house].
  apply (current_parts_Some _ _ c h (mkHouse (parts H ++ map (label c) S)));
    [done|]. simpl. by rewrite lookup_insert_eq.
Qed.

Lemma steps_append_only_witness :
  ∃ σ',
    steps [Garden; Garden; Walls] 1 two_builders_store = Return () σ' ∧
    current_parts σ' 1
    = Some (parts (mkHouse [])
            ++ map (label Class_CastleBuilder) [Garden; Garden; Walls]) ∧
    only_house_changed 1 two_builders_store σ'.
Proof.
  apply (steps_append_only two_builders_store 1 Class_CastleBuilder 1
           (mkHouse []) [Garden; Garden; Walls]);
    reflexivity.
Defined.
